(** * Eurostat city data manager: cube decoding, storage, scoring, ranking

    A shallow embedding of [src/eurostat_data_manager.py] (class
    [EurostatDataManager]) and the properties of its decoding, storage,
    scoring and ranking engine.

    Conventions of the embedding:
    - Python [int] is [Z]; [//] and [%] are [Z.div] and [Z.modulo], which
      round toward minus infinity as Python's do; division by zero raises.
    - Python [float] and SQL [REAL] are exact rationals [Q], compared with
      [==]; rounding error of binary floating point is not modelled.
    - Python [str] and SQL [TEXT] are [string]: sequences of bytes, the
      ASCII characters and the UTF-8 bytes of every other character.
      [lower] and [upper] change the 26 ASCII letters: this is what SQL
      [LOWER] and [UPPER] do in SQLite on every text, and what Python's
      [str.lower] does on ASCII text.
    - a Python [dict] is an association list in insertion order.
    - a raised exception is the [Raise] branch of [result]. *)

From Stdlib Require Import String Ascii.
From Stdlib Require Import List Bool ZArith QArith Qround Lia Lqa.
From Stdlib Require Import Permutation Sorted.
Import ListNotations.

Local Open Scope string_scope.
Local Open Scope Z_scope.
Local Open Scope list_scope.

(** ** Exceptions *)

Inductive py_exception : Type :=
| ZeroDivisionError
| IndexError
| ValueError
| TypeError
| AttributeError.

Inductive result (A : Type) : Type :=
| Ok (a : A)
| Raise (e : py_exception).

Arguments Ok {A} a.
Arguments Raise {A} e.

Definition bind {A B : Type} (r : result A) (k : A -> result B) : result B :=
  match r with
  | Ok a => k a
  | Raise e => Raise e
  end.

Declare Scope result_scope.
Delimit Scope result_scope with result.
Notation "x <- c1 ;; c2" := (bind c1 (fun x => c2))
  (at level 61, c1 at next level, right associativity) : result_scope.
Local Open Scope result_scope.

(** ** CoordinateDecoder: [_index_to_coords] *)

(** The body of [for size in reversed(sizes)]: [coords.append(index % size)]
    then [index //= size]. *)
Fixpoint index_to_coords_loop (rsizes : list Z) (index : Z) (coords : list Z)
  : result (list Z) :=
  match rsizes with
  | [] => Ok coords
  | size :: rest =>
      if size =? 0 then Raise ZeroDivisionError
      else index_to_coords_loop rest (index / size) (coords ++ [index mod size])
  end.

Definition _index_to_coords (index : Z) (sizes : list Z) : result (list Z) :=
  coords <- index_to_coords_loop (rev sizes) index [] ;;
  Ok (rev coords).

(** The inverse direction, following the specification's words: walk the
    dimensions from last to first, the last one having stride 1. *)
Fixpoint encode_rev (rcoords rsizes : list Z) : Z :=
  match rcoords, rsizes with
  | c :: cs, s :: ss => c + s * encode_rev cs ss
  | _, _ => 0
  end.

Definition coords_to_index (coords sizes : list Z) : Z :=
  encode_rev (rev coords) (rev sizes).

Definition product (sizes : list Z) : Z := fold_right Z.mul 1 sizes.

(** The digits the loop appends, least significant first. *)
Fixpoint digits (rsizes : list Z) (index : Z) : list Z :=
  match rsizes with
  | [] => []
  | size :: rest => (index mod size) :: digits rest (index / size)
  end.

(** ** Strings: the [str] methods the program calls *)

Definition ascii_lower (c : ascii) : ascii :=
  let n := N_of_ascii c in
  if ((65 <=? n) && (n <=? 90))%N then ascii_of_N (n + 32) else c.

Definition ascii_upper (c : ascii) : ascii :=
  let n := N_of_ascii c in
  if ((97 <=? n) && (n <=? 122))%N then ascii_of_N (n - 32) else c.

(** [s.lower()] and [s.upper()] (and SQL [UPPER]). *)
Fixpoint lower (s : string) : string :=
  match s with
  | EmptyString => EmptyString
  | String c s' => String (ascii_lower c) (lower s')
  end.

Fixpoint upper (s : string) : string :=
  match s with
  | EmptyString => EmptyString
  | String c s' => String (ascii_upper c) (upper s')
  end.

(** [s.startswith(p)]. *)
Fixpoint startswith (s p : string) {struct p} : bool :=
  match p, s with
  | EmptyString, _ => true
  | String _ _, EmptyString => false
  | String a p', String b s' => Ascii.eqb a b && startswith s' p'
  end.

(** [s.endswith(p)]: some tail of [s] is [p]. *)
Fixpoint endswith (s p : string) : bool :=
  String.eqb s p ||
  match s with
  | EmptyString => false
  | String _ s' => endswith s' p
  end.

(** [p in s]: [p] starts at some position of [s]. *)
Fixpoint contains (s p : string) : bool :=
  startswith s p ||
  match s with
  | EmptyString => false
  | String _ s' => contains s' p
  end.

(** [s[:n]]. *)
Fixpoint str_take (n : nat) (s : string) : string :=
  match n, s with
  | S n', String c s' => String c (str_take n' s')
  | _, _ => EmptyString
  end.

(** ** Python values and dictionaries *)

(** The values a decoded record holds: [None], a [str], a [float]. *)
Inductive pyval : Type :=
| PNone
| PStr (s : string)
| PNum (q : Q).

(** A [dict] with [str] keys, in insertion order. *)
Definition dict (V : Type) : Type := list (string * V).

(** [d.get(k)] *)
Fixpoint dict_get {V : Type} (d : dict V) (k : string) : option V :=
  match d with
  | [] => None
  | (k', v) :: d' => if String.eqb k' k then Some v else dict_get d' k
  end.

(** [d[k] = v]: an existing key keeps its position. *)
Fixpoint dict_set {V : Type} (d : dict V) (k : string) (v : V) : dict V :=
  match d with
  | [] => [(k, v)]
  | (k', v') :: d' =>
      if String.eqb k' k then (k, v) :: d' else (k', v') :: dict_set d' k v
  end.

Definition dict_keys {V : Type} (d : dict V) : list string := map fst d.

(** The keys of the [status] object as Python sees them.  A key read from
    JSON text is a [str]; the decoder looks the object up with an [int].
    A [str] and an [int] are never equal as dictionary keys. *)
Inductive pykey : Type :=
| KInt (n : Z)
| KStr (s : string).

Definition pykey_eqb (a b : pykey) : bool :=
  match a, b with
  | KInt n, KInt m => n =? m
  | KStr s, KStr t => String.eqb s t
  | _, _ => false
  end.

Fixpoint status_get (status : list (pykey * string)) (k : pykey) (default : string)
  : string :=
  match status with
  | [] => default
  | (k', v) :: rest => if pykey_eqb k' k then v else status_get rest k default
  end.

(** ** The cube (JSON-stat document) *)

(** [dimension[name]['category']]: the [index] and [label] objects.  The
    program reads each level with [.get(..., {})], so an absent dimension,
    category, index or label is an empty dictionary. *)
Record category : Type := {
  cat_index : dict Z;
  cat_label : dict string
}.

Definition empty_category : category := {| cat_index := []; cat_label := [] |}.

Record cube : Type := {
  cube_dimension : dict category;       (* data.get('dimension', {}) *)
  cube_value : list (option Q);         (* data.get('value', []): numbers and nulls *)
  cube_status : list (pykey * string);  (* data.get('status', {}) *)
  cube_size : list Z;                   (* data.get('size', []) *)
  cube_id : list string                 (* data.get('id', []) *)
}.

Definition record : Type := dict pyval.

(** ** CubeDecoder: [parse_jsonstat] *)

(** [indices[dim_name]]: built from [dimensions.get(dim_name, {})] for every
    name of [dim_names], and read only at those names. *)
Definition indices (dimensions : dict category) (dim_name : string) : category :=
  match dict_get dimensions dim_name with
  | Some c => c
  | None => empty_category
  end.

(** [for key, val in cat_index.items(): if val == dim_index: ... break] *)
Fixpoint find_code (cat_index : dict Z) (dim_index : Z) : option string :=
  match cat_index with
  | [] => None
  | (key, val) :: rest =>
      if val =? dim_index then Some key else find_code rest dim_index
  end.

(** [cat_label.get(key, key)] *)
Definition label_of (cat_label : dict string) (key : string) : string :=
  match dict_get cat_label key with
  | Some l => l
  | None => key
  end.

(** One dimension of one cell. *)
Definition decode_dim (dimensions : dict category) (dim_name : string)
    (dim_index : Z) (rec : record) : record :=
  let c := indices dimensions dim_name in
  match find_code (cat_index c) dim_index with
  | Some key =>
      dict_set (dict_set rec dim_name (PStr key))
               (String.append dim_name "_label") (PStr (label_of (cat_label c) key))
  | None => rec
  end.

(** [for i, dim_name in enumerate(dim_names): dim_index = coords[i] ...];
    [coords[i]] raises [IndexError] when [coords] is too short. *)
Fixpoint decode_dims (dimensions : dict category) (dim_names : list string)
    (coords : list Z) (rec : record) : result record :=
  match dim_names with
  | [] => Ok rec
  | dim_name :: names =>
      match coords with
      | [] => Raise IndexError
      | dim_index :: coords' =>
          decode_dims dimensions names coords'
            (decode_dim dimensions dim_name dim_index rec)
      end
  end.

Definition cell (value : option Q) : pyval :=
  match value with
  | Some q => PNum q
  | None => PNone
  end.

(** The body of [for idx, value in enumerate(values)]. *)
Definition decode_cell (data : cube) (idx : Z) (value : option Q) : result record :=
  coords <- _index_to_coords idx (cube_size data) ;;
  rec <- decode_dims (cube_dimension data) (cube_id data) coords [] ;;
  let rec1 := dict_set rec "value" (cell value) in
  Ok (dict_set rec1 "status"
        (PStr (match cube_status data with
               | [] => ""
               | _ => status_get (cube_status data) (KInt idx) ""
               end))).

Fixpoint decode_cells (data : cube) (idx : Z) (values : list (option Q))
  : result (list record) :=
  match values with
  | [] => Ok []
  | value :: rest =>
      rec <- decode_cell data idx value ;;
      records <- decode_cells data (idx + 1) rest ;;
      Ok (rec :: records)
  end.

Definition parse_jsonstat (data : cube) : result (list record) :=
  decode_cells data 0 (cube_value data).

(** ** Normalizer: [_normalize_value] and [_is_lower_better] *)

(** Python's [min(a, b)]: [b] when [b < a], else [a]. *)
Definition py_min (a b : Q) : Q := if Qlt_le_dec b a then b else a.

Definition _normalize_value (value : Q) (indicator_name : string) : Q :=
  let name := lower indicator_name in
  if contains name "%" then py_min (value / 100) 1
  else if contains name "minutes" then py_min (value / 60) 1
  else if contains name "km" then py_min (value / 50) 1
  else if contains name "eur" then py_min (value / 100) 1
  else if contains name "per 1000" then py_min (value / 1000) 1
  else py_min (value / 100000) 1.

Definition lower_better_keywords : list string :=
  ["car"; "motor cycle"; "death"; "accident"; "cost"; "time"; "minutes"; "eur"].

Definition _is_lower_better (indicator_name : string) : bool :=
  existsb (fun k => contains (lower indicator_name) k) lower_better_keywords.

(** The Normalizer as the specification words it: an ordered table of
    (marker, divisor) rules, the first marker found in the name without
    regard to letter case decides, and the quotient is capped at 1. *)
Definition normalize_rules : list (string * Q) :=
  [("%", 100%Q); ("minutes", 60%Q); ("km", 50%Q); ("eur", 100%Q); ("per 1000", 1000%Q)].

Definition contains_nocase (name marker : string) : bool :=
  contains (lower name) (lower marker).

Fixpoint first_rule (rules : list (string * Q)) (name : string) : Q :=
  match rules with
  | [] => 100000%Q
  | (marker, divisor) :: rest =>
      if contains_nocase name marker then divisor else first_rule rest name
  end.

Definition normalize_spec (value : Q) (indicator_name : string) : Q :=
  let q := (value / first_rule normalize_rules indicator_name)%Q in
  if Qlt_le_dec 1 q then 1%Q else q.

(** ** IndicatorStore: the two tables *)

(** A row of [cities]. *)
Record city_row : Type := {
  city_code : string;
  city_name : option string;
  country : option string;
  lat : option Q;
  lng : option Q;
  population : option Z
}.

(** A row of [indicators].  The [id] column, which no query reads, is left
    out; the rows are kept in the order of their ids. *)
Record indicator_row : Type := {
  ind_city_code : string;
  ind_indicator_code : option string;
  ind_indicator_name : option string;
  ind_year : option Z;
  ind_value : option Q;
  ind_status : option string
}.

(** The database: both tables, rows in insertion (rowid) order. *)
Record db : Type := {
  cities : list city_row;
  indicators : list indicator_row
}.

Definition opt_eqb {A : Type} (eqb : A -> A -> bool) (a b : option A) : bool :=
  match a, b with
  | Some x, Some y => eqb x y
  | _, _ => false
  end.

(** [INSERT OR IGNORE INTO cities (city_code, city_name, country)]: a row
    with this primary key keeps the table as it is; the result also tells
    [cursor.rowcount > 0]. *)
Definition insert_or_ignore_city (table : list city_row)
    (code : string) (name : option string) (ctry : string)
  : list city_row * bool :=
  if existsb (fun r => String.eqb (city_code r) code) table
  then (table, false)
  else (table ++ [{| city_code := code; city_name := name; country := Some ctry;
                     lat := None; lng := None; population := None |}], true).

(** The [UNIQUE(city_code, indicator_code, year)] constraint: two rows
    conflict when the three columns are equal and none is NULL (SQL keeps
    NULLs distinct from each other in a UNIQUE constraint). *)
Definition unique_conflict (a b : indicator_row) : bool :=
  String.eqb (ind_city_code a) (ind_city_code b)
  && opt_eqb String.eqb (ind_indicator_code a) (ind_indicator_code b)
  && opt_eqb Z.eqb (ind_year a) (ind_year b).

(** [INSERT OR REPLACE INTO indicators ...]: the conflicting rows are
    deleted, then the new row is added. *)
Definition insert_or_replace_indicator (table : list indicator_row)
    (row : indicator_row) : list indicator_row :=
  filter (fun r => negb (unique_conflict r row)) table ++ [row].

(** ** DimensionRoleResolver and ingestion: [store_data] *)

(** Built-in conversions the ingestion calls and this development does not
    define: [int(s)] and [float(s)] on a [str] ([None] stands for
    [ValueError]), and the text SQLite stores for a number bound to a TEXT
    column. *)
Record builtins : Type := {
  py_int : string -> option Z;
  py_float : string -> option Q;
  sqlite_text : Q -> string
}.

Record counters : Type := {
  cities_added : Z;
  indicators_added : Z;
  skipped : Z;
  errors : Z
}.

Definition zero_counters : counters :=
  {| cities_added := 0; indicators_added := 0; skipped := 0; errors := 0 |}.

Definition count_city (c : counters) : counters :=
  {| cities_added := cities_added c + 1; indicators_added := indicators_added c;
     skipped := skipped c; errors := errors c |}.
Definition count_indicator (c : counters) : counters :=
  {| cities_added := cities_added c; indicators_added := indicators_added c + 1;
     skipped := skipped c; errors := errors c |}.
Definition count_skipped (c : counters) : counters :=
  {| cities_added := cities_added c; indicators_added := indicators_added c;
     skipped := skipped c + 1; errors := errors c |}.
Definition count_error (c : counters) : counters :=
  {| cities_added := cities_added c; indicators_added := indicators_added c;
     skipped := skipped c; errors := errors c + 1 |}.

(** [next((k for k in record if p(k)), None)] *)
Definition first_key (p : string -> bool) (rec : record) : option string :=
  find p (dict_keys rec).

(** [record.get(k)], [None] when the key is absent. *)
Definition record_get (rec : record) (k : string) : pyval :=
  match dict_get rec k with
  | Some v => v
  | None => PNone
  end.

(** A Python value bound to a TEXT column. *)
Definition sql_text (B : builtins) (v : pyval) : option string :=
  match v with
  | PNone => None
  | PStr s => Some s
  | PNum q => Some (sqlite_text B q)
  end.

(** [int(x)] for a float: truncation toward zero. *)
Definition Qtruncate (q : Q) : Z := Z.quot (Qnum q) (Z.pos (Qden q)).

(** [int(record.get(year_key, 0)) if year_key else None] *)
Definition record_year (B : builtins) (rec : record) : result (option Z) :=
  match first_key (String.eqb "time") rec with
  | None => Ok None
  | Some year_key =>
      match record_get rec year_key with
      | PStr s =>
          match py_int B s with
          | Some n => Ok (Some n)
          | None => Raise ValueError
          end
      | PNum q => Ok (Some (Qtruncate q))
      | PNone => Raise TypeError
      end
  end.

(** [float(record.get('value', None)) if record.get('value') is not None
    else None] *)
Definition record_value (B : builtins) (rec : record) : result (option Q) :=
  match record_get rec "value" with
  | PNone => Ok None
  | PNum q => Ok (Some q)
  | PStr s =>
      match py_float B s with
      | Some q => Ok (Some q)
      | None => Raise ValueError
      end
  end.

(** [record.get('status', '')] *)
Definition record_status (rec : record) : pyval :=
  match dict_get rec "status" with
  | Some v => v
  | None => PStr ""
  end.

(** sqlite3 binds a Python [int] as a 64-bit INTEGER and raises
    OverflowError for any other. *)
Definition sqlite_int_ok (n : option Z) : bool :=
  match n with
  | Some z => (- 2 ^ 63 <=? z) && (z <? 2 ^ 63)
  | None => true
  end.

(** The second half of the loop body, from the indicator dimension on; the
    city row is already written.  An exception leaves the tables as they
    are at that point and counts one error. *)
Definition store_indicator (B : builtins) (d : db) (c : counters)
    (rec : record) (code : string) : db * counters :=
  match first_key (fun k => startswith k "indic") rec with
  | None => (d, c)
  | Some indic_key =>
      match record_year B rec with
      | Raise _ => (d, count_error c)
      | Ok year =>
          match record_value B rec with
          | Raise _ => (d, count_error c)
          | Ok value =>
              if negb (sqlite_int_ok year) then (d, count_error c) else
              let row :=
                {| ind_city_code := code;
                   ind_indicator_code := sql_text B (record_get rec indic_key);
                   ind_indicator_name :=
                     sql_text B (record_get rec (String.append indic_key "_label"));
                   ind_year := year;
                   ind_value := value;
                   ind_status := sql_text B (record_status rec) |} in
              ({| cities := cities d;
                  indicators := insert_or_replace_indicator (indicators d) row |},
               count_indicator c)
          end
      end
  end.

(** The body of [for record in records], with its [try]/[except]. *)
Definition store_record (B : builtins) (st : db * counters) (rec : record)
  : db * counters :=
  let '(d, c) := st in
  match first_key (fun k => endswith k "ies") rec with
  | None => (d, count_skipped c)
  | Some city_key =>
      match record_get rec city_key with
      | PNone => (d, count_skipped c)
      | PNum q =>
          (* [not city_code] holds for 0.0; any other float has no
             [endswith] and raises AttributeError *)
          if Qeq_bool q 0 then (d, count_skipped c) else (d, count_error c)
      | PStr code =>
          if String.eqb code "" || negb (endswith code "C")
          then (d, count_skipped c)
          else
            let ctry := upper (str_take 2 code) in
            let name := sql_text B (record_get rec (String.append city_key "_label")) in
            let '(table, added) := insert_or_ignore_city (cities d) code name ctry in
            let d1 := {| cities := table; indicators := indicators d |} in
            let c1 := if added then count_city c else c in
            store_indicator B d1 c1 rec code
      end
  end.

(** [store_data]: decode, then run the loop over the records.  A decoding
    exception leaves [store_data] before anything is written. *)
Definition store_data (B : builtins) (d : db) (dataset : cube)
  : result (db * counters) :=
  records <- parse_jsonstat dataset ;;
  Ok (fold_left (store_record B) records (d, zero_counters)).

(** The coding convention as the specification words it: a two-letter
    country prefix, and the suffix marker at the end. *)
Definition is_letter (c : ascii) : bool :=
  let n := N_of_ascii c in
  (((65 <=? n) && (n <=? 90)) || ((97 <=? n) && (n <=? 122)))%N.

Definition matches_convention (code : string) : bool :=
  match code with
  | String a (String b rest) => is_letter a && is_letter b && endswith rest "C"
  | _ => false
  end.

(** ** ScoringEngine: [calculate_score] *)

(** [ORDER BY year DESC]: NULL sorts below every year. *)
Definition year_leb (a b : option Z) : bool :=
  match a, b with
  | None, _ => true
  | Some _, None => false
  | Some x, Some y => x <=? y
  end.

(** [WHERE city_code = ? AND indicator_code = ?] *)
Definition obs_matches (code indicator : string) (r : indicator_row) : bool :=
  String.eqb (ind_city_code r) code
  && opt_eqb String.eqb (ind_indicator_code r) (Some indicator).

(** [ORDER BY year DESC LIMIT 1] over the matching rows.  Among rows of
    equal year SQL leaves the choice open; the model takes the one inserted
    last. *)
Fixpoint latest_of (rows : list indicator_row) (best : option indicator_row)
  : option indicator_row :=
  match rows with
  | [] => best
  | r :: rest =>
      latest_of rest
        (match best with
         | None => Some r
         | Some b => if year_leb (ind_year b) (ind_year r) then Some r else Some b
         end)
  end.

Definition latest_row (d : db) (code indicator : string) : option indicator_row :=
  latest_of (filter (obs_matches code indicator) (indicators d)) None.

(** What one (indicator_code, weight) pair adds to [total_score] and
    [total_weight]; [indicator_name.lower()] raises on a NULL name. *)
Definition score_step (d : db) (code : string) (acc : Q * Q) (item : string * Q)
  : result (Q * Q) :=
  let '(total_score, total_weight) := acc in
  let '(indicator_code, weight) := item in
  match latest_row d code indicator_code with
  | Some r =>
      match ind_value r with
      | Some value =>
          match ind_indicator_name r with
          | Some indicator_name =>
              let normalized := _normalize_value value indicator_name in
              let normalized :=
                if _is_lower_better indicator_name then (1 - normalized)%Q
                else normalized in
              Ok ((total_score + normalized * weight)%Q, (total_weight + weight)%Q)
          | None => Raise AttributeError
          end
      | None => Ok acc
      end
  | None => Ok acc
  end.

Fixpoint score_loop (d : db) (code : string) (items : list (string * Q))
    (acc : Q * Q) : result (Q * Q) :=
  match items with
  | [] => Ok acc
  | item :: rest =>
      acc' <- score_step d code acc item ;;
      score_loop d code rest acc'
  end.

Definition calculate_score (d : db) (code : string) (weights : dict Q) : result Q :=
  totals <- score_loop d code weights (0%Q, 0%Q) ;;
  let '(total_score, total_weight) := totals in
  Ok (if Qlt_le_dec 0 total_weight then (total_score / total_weight)%Q else 0%Q).

(** The score as the specification words it: a weighted average over the
    indicators that have a latest observation with a non-null value. *)
Definition adjusted (value : Q) (indicator_name : string) : Q :=
  let normalized := _normalize_value value indicator_name in
  if _is_lower_better indicator_name then (1 - normalized)%Q else normalized.

(** The latest observation of an indicator, when it has a value. *)
Definition observed (d : db) (code indicator : string) : option (Q * option string) :=
  match latest_row d code indicator with
  | Some r =>
      match ind_value r with
      | Some value => Some (value, ind_indicator_name r)
      | None => None
      end
  | None => None
  end.

Definition contributes (d : db) (code : string) (item : string * Q) : bool :=
  match observed d code (fst item) with
  | Some _ => true
  | None => false
  end.

Definition contribution (d : db) (code : string) (item : string * Q) : Q :=
  match observed d code (fst item) with
  | Some (value, Some name) => (adjusted value name * snd item)%Q
  | _ => 0%Q
  end.

Definition Qsum (l : list Q) : Q := fold_right Qplus 0%Q l.

Definition numerator (d : db) (code : string) (weights : dict Q) : Q :=
  Qsum (map (contribution d code) (filter (contributes d code) weights)).

Definition denominator (d : db) (code : string) (weights : dict Q) : Q :=
  Qsum (map snd (filter (contributes d code) weights)).

(** No contributing observation has a NULL [indicator_name]. *)
Definition names_present (d : db) (code : string) (weights : dict Q) : Prop :=
  forall item value,
    In item weights -> observed d code (fst item) <> Some (value, None).

(** Every observation that contributes has a non-negative value. *)
Definition values_nonneg (d : db) (code : string) (weights : dict Q) : Prop :=
  forall item value name,
    In item weights -> observed d code (fst item) = Some (value, name) ->
    (0 <= value)%Q.

(** ** RankingEngine: [rank_cities], [rank_cities_advanced], [list_cities] *)

(** An element of a ranking: [rank_cities] yields [city_code], [city_name],
    [country] and a rounded score; the population fallback yields
    [city_name], [country] and the population as [score]. *)
Inductive ranking : Type :=
| Scored (code : string) (name ctry : option string) (score : Q)
| ByPopulation (name ctry : option string) (score : option Z).

Definition ranking_code (r : ranking) : option string :=
  match r with
  | Scored code _ _ _ => Some code
  | ByPopulation _ _ _ => None
  end.

Definition ranking_score (r : ranking) : Q :=
  match r with
  | Scored _ _ _ score => score
  | ByPopulation _ _ _ => 0%Q
  end.

(** A stable sort: [x] goes behind the elements that must come [before]
    it, and in front of the others, which came later in the input. *)
Fixpoint insert_sorted {A : Type} (before : A -> A -> bool) (x : A) (l : list A)
  : list A :=
  match l with
  | [] => [x]
  | y :: l' => if before y x then y :: insert_sorted before x l' else x :: l
  end.

Definition stable_sort {A : Type} (before : A -> A -> bool) (l : list A) : list A :=
  fold_right (insert_sorted before) [] l.

(** [round(x, 3)]: to the nearest multiple of 1/1000, ties to even. *)
Definition round_half_even (x : Q) : Z :=
  let n := Qfloor x in
  match Qcompare (x - inject_Z n) (1 # 2) with
  | Lt => n
  | Gt => n + 1
  | Eq => if Z.even n then n else n + 1
  end.

Definition py_round3 (x : Q) : Q :=
  (inject_Z (round_half_even (x * 1000)) / 1000)%Q.

(** [l[:n]]: a negative [n] counts from the end. *)
Definition py_take {A : Type} (n : Z) (l : list A) : list A :=
  if n <? 0 then firstn (length l - Z.to_nat (- n)) l else firstn (Z.to_nat n) l.

(** SQL [LIMIT n]: a negative [n] is no limit. *)
Definition sql_limit {A : Type} (n : Z) (l : list A) : list A :=
  if n <? 0 then l else firstn (Z.to_nat n) l.

(** [WHERE country = ?]: byte-wise, and never true of a NULL country. *)
Definition country_is (c : string) (r : city_row) : bool :=
  opt_eqb String.eqb (country r) (Some c).

(** [WHERE UPPER(country) = UPPER(?)] *)
Definition country_is_nocase (c : string) (r : city_row) : bool :=
  match country r with
  | Some s => String.eqb (upper s) (upper c)
  | None => false
  end.

(** [if country_filter:] holds for a non-empty string. *)
Definition truthy (s : option string) : option string :=
  match s with
  | Some EmptyString => None
  | other => other
  end.

(** The loop of [rank_cities] over the selected rows. *)
Fixpoint rank_loop (d : db) (weights : dict Q) (rows : list city_row)
  : result (list ranking) :=
  match rows with
  | [] => Ok []
  | r :: rest =>
      score <- calculate_score d (city_code r) weights ;;
      rankings <- rank_loop d weights rest ;;
      Ok (if Qlt_le_dec 0 score
          then Scored (city_code r) (city_name r) (country r) (py_round3 score)
               :: rankings
          else rankings)
  end.

Definition rank_cities (d : db) (weights : dict Q) (limit : Z)
    (country_filter : option string) : result (list ranking) :=
  let rows :=
    match truthy country_filter with
    | Some c => filter (country_is c) (cities d)
    | None => cities d
    end in
  rankings <- rank_loop d weights rows ;;
  Ok (py_take limit
        (stable_sort (fun a b => if Qlt_le_dec (ranking_score b) (ranking_score a)
                                 then true else false)
           rankings)).

(** [ORDER BY population DESC]: NULL sorts below every population. *)
Definition population_ltb (a b : option Z) : bool :=
  match a, b with
  | None, Some _ => true
  | Some x, Some y => x <? y
  | _, _ => false
  end.

Definition by_population (rows : list city_row) (limit : Z) : list ranking :=
  map (fun r => ByPopulation (city_name r) (country r) (population r))
    (sql_limit limit
       (stable_sort (fun a b => population_ltb (population b) (population a)) rows)).

(** [rank_cities_advanced] as the class has it at run time: the definition
    at the end of the class body, which replaces the earlier one of the
    same name. *)
Definition rank_cities_advanced (d : db) (weights : dict Q) (country : string)
    (limit : Z) : result (list ranking) :=
  match weights with
  | [] => Ok (by_population (filter (country_is country) (cities d)) limit)
  | _ => rank_cities d weights limit (Some country)
  end.

(** The data check of the earlier definition: [SELECT 1 FROM indicators i
    JOIN cities c ON i.city_code = c.city_code WHERE UPPER(c.country) =
    UPPER(?) AND i.indicator_code IN (...) LIMIT 1] returns a row. *)
Definition has_data (d : db) (weights : dict Q) (country : string) : bool :=
  existsb (fun i =>
    existsb (fun c => String.eqb (ind_city_code i) (city_code c)
                      && country_is_nocase country c) (cities d)
    && existsb (fun k => opt_eqb String.eqb (ind_indicator_code i) (Some k))
         (dict_keys weights))
    (indicators d).

(** The earlier definition of [rank_cities_advanced] in the class body,
    which the later one replaces.  Its recursion is on no argument that
    decreases; [fuel] bounds the depth of calls, and [None] is a call that
    would need more. *)
Fixpoint rank_cities_advanced_shadowed (fuel : nat) (d : db) (weights : dict Q)
    (country : string) (limit : Z) : option (result (list ranking)) :=
  match fuel with
  | O => None
  | S fuel' =>
      match weights with
      | [] =>
          Some (Ok (by_population (filter (country_is_nocase country) (cities d)) limit))
      | _ =>
          if has_data d weights country
          then Some (rank_cities d weights limit (Some country))
          else rank_cities_advanced_shadowed fuel' d [] country limit
      end
  end.

(** [ORDER BY city_name]: NULL first, then byte-wise. *)
Definition name_ltb (a b : option string) : bool :=
  match a, b with
  | None, Some _ => true
  | Some x, Some y => String.ltb x y
  | _, _ => false
  end.

Definition list_cities (d : db) (country : option string) : list city_row :=
  let rows :=
    match truthy country with
    | Some c => filter (country_is_nocase c) (cities d)
    | None => cities d
    end in
  stable_sort (fun a b => name_ltb (city_name a) (city_name b)) rows.

(** The rows a call yields; none when it raises. *)
Definition rows_of {A : Type} (r : result (list A)) : list A :=
  match r with
  | Ok l => l
  | Raise _ => []
  end.

(** ** Notions the statements about the store use *)

(** The row is the observation of the triple (entity, indicator, year). *)
Definition has_triple (code indicator : string) (year : Z) (r : indicator_row) : bool :=
  String.eqb (ind_city_code r) code
  && opt_eqb String.eqb (ind_indicator_code r) (Some indicator)
  && opt_eqb Z.eqb (ind_year r) (Some year).

(** At most one row per triple. *)
Definition obs_unique (table : list indicator_row) : Prop :=
  forall code indicator year,
    (length (filter (has_triple code indicator year) table) <= 1)%nat.

(** The rows of an entity and an indicator that carry no year. *)
Definition undated (code indicator : string) (r : indicator_row) : bool :=
  String.eqb (ind_city_code r) code
  && opt_eqb String.eqb (ind_indicator_code r) (Some indicator)
  && match ind_year r with None => true | Some _ => false end.

(** Decimal integers, the strings [int] accepts in the examples. *)
Definition digit_of (c : ascii) : option Z :=
  let n := N_of_ascii c in
  if ((48 <=? n) && (n <=? 57))%N then Some (Z.of_N (n - 48)) else None.

Fixpoint digits_value (s : string) (acc : Z) : option Z :=
  match s with
  | EmptyString => Some acc
  | String c s' =>
      match digit_of c with
      | Some v => digits_value s' (10 * acc + v)
      | None => None
      end
  end.

Definition decimal_int (s : string) : option Z :=
  match s with
  | EmptyString => None
  | String "-" (String _ _ as s') => option_map Z.opp (digits_value s' 0)
  | String "+" (String _ _ as s') => digits_value s' 0
  | _ => digits_value s 0
  end.

(** The built-ins on the inputs of the examples, which convert no text to
    a float and bind no number to a TEXT column. *)
Definition example_builtins : builtins :=
  {| py_int := decimal_int;
     py_float := fun s => option_map inject_Z (decimal_int s);
     sqlite_text := fun _ => "" |}.

(** Text under every key, as while the dimensions are decoded. *)
Definition texts (rec : record) : Prop :=
  forall k v, dict_get rec k = Some v -> exists s, v = PStr s.

(** The first indicator key has its label key. *)
Definition labelled (rec : record) : Prop :=
  forall k, first_key (fun k => startswith k "indic") rec = Some k ->
    exists s, dict_get rec (String.append k "_label") = Some (PStr s).

(** A record as the decoder builds it: a number or [None] under [value],
    text under every other key, and the label key of the first indicator
    key. *)
Definition decoded (rec : record) : Prop :=
  (forall k v, dict_get rec k = Some v -> k <> "value" -> exists s, v = PStr s) /\
  (forall v, dict_get rec "value" = Some v -> v = PNone \/ exists q, v = PNum q) /\
  (forall k, first_key (fun k => startswith k "indic") rec = Some k ->
     exists s, dict_get rec (String.append k "_label") = Some (PStr s)).

(** No observation has a NULL [indicator_name]. *)
Definition all_named (table : list indicator_row) : Prop :=
  Forall (fun r => ind_indicator_name r <> None) table.

(** ** Cubes and databases the examples use *)

(** A cube of declared size 2 with a single value. *)
Definition short_cube : cube :=
  {| cube_dimension :=
       [("cities", {| cat_index := [("FR001C", 0); ("FR002C", 1)];
                      cat_label := [("FR001C", "Paris")] |})];
     cube_value := [Some 42%Q];
     cube_status := [];
     cube_size := [2];
     cube_id := ["cities"] |}.

(** A cube of one cell whose status object, read from JSON, has the flat
    index as text for its key. *)
Definition flagged_cube : cube :=
  {| cube_dimension :=
       [("cities", {| cat_index := [("FR001C", 0)]; cat_label := [("FR001C", "Paris")] |})];
     cube_value := [Some 42%Q];
     cube_status := [(KStr "0", "e")];
     cube_size := [1];
     cube_id := ["cities"] |}.


Definition empty_db : db := {| cities := []; indicators := [] |}.

Definition paris : city_row :=
  {| city_code := "FR001C"; city_name := Some "Paris"; country := Some "FR";
     lat := None; lng := None; population := Some 2100000 |}.

Definition lyon : city_row :=
  {| city_code := "FR003C"; city_name := Some "Lyon"; country := Some "FR";
     lat := None; lng := None; population := Some 500000 |}.

Definition observation (code indicator name : string) (year : Z) (value : Q)
  : indicator_row :=
  {| ind_city_code := code; ind_indicator_code := Some indicator;
     ind_indicator_name := Some name; ind_year := Some year;
     ind_value := Some value; ind_status := Some "" |}.

(** Paris with one observation of indicator TT1, of value 42. *)
Definition sample_db : db :=
  {| cities := [paris; lyon];
     indicators := [observation "FR001C" "TT1" "Population" 2020 42%Q] |}.

(** Paris with a negative observation, and one of a cost. *)
Definition negative_db : db :=
  {| cities := [paris];
     indicators := [observation "FR001C" "TT1" "Net migration" 2020 (-5)%Q;
                    observation "FR001C" "TT2" "Cost of a ticket" 2020 (-5)%Q] |}.

(** Two French cities and no observation. *)
Definition cities_only_db : db := {| cities := [lyon; paris]; indicators := [] |}.

(** A cube of the given dimension names, all of size 1, whose single cell
    has the given value; each dimension has one category of index 0. *)
Definition one_cell (dims : list (string * string)) (value : Q) : cube :=
  {| cube_dimension :=
       map (fun dc => (fst dc, {| cat_index := [(snd dc, 0)]; cat_label := [] |})) dims;
     cube_value := [Some value];
     cube_status := [];
     cube_size := map (fun _ => 1) dims;
     cube_id := map fst dims |}.

Definition undated_dims : list (string * string) :=
  [("cities", "FR001C"); ("indic_ur", "TT1")].

Definition dated_dims : list (string * string) :=
  [("cities", "FR001C"); ("indic_ur", "TT1"); ("time", "2020")].

Definition city_of (code : string) (ctry : string) : city_row :=
  {| city_code := code; city_name := Some code; country := Some ctry;
     lat := None; lng := None; population := None |}.

Definition undated_observation (code indicator : string) (value : Q) : indicator_row :=
  {| ind_city_code := code; ind_indicator_code := Some indicator;
     ind_indicator_name := Some indicator; ind_year := None;
     ind_value := Some value; ind_status := Some "" |}.

(** ** The gazetteer load: [ingest_csv] *)

(** [INSERT OR REPLACE INTO cities ...]: the row of the same primary key is
    deleted, then the new row is added. *)
Definition insert_or_replace_city (table : list city_row) (row : city_row)
  : list city_row :=
  filter (fun r => negb (String.eqb (city_code r) (city_code row))) table ++ [row].

(** [ingest_csv], from the rows [city_data] that pandas hands to
    [executemany], each as SQLite stores it (the [id] of the file as the
    text [city_code]); reading the file is outside the model. *)
Definition ingest_csv (d : db) (city_data : list city_row) : db :=
  {| cities := fold_left insert_or_replace_city city_data (cities d);
     indicators := indicators d |}.

(** The rows of a file that stand after the load: of several rows of one
    code, the last. *)
Fixpoint last_rows (rows : list city_row) : list city_row :=
  match rows with
  | [] => []
  | r :: rest =>
      if existsb (fun r' => String.eqb (city_code r') (city_code r)) rest
      then last_rows rest
      else r :: last_rows rest
  end.

(** ** The queries: [get_cities_by_country], [get_city_data],
    [list_available_indicators] *)

(** [WHERE LOWER(country) = LOWER(?)] *)
Definition country_is_lower (c : string) (r : city_row) : bool :=
  match country r with
  | Some s => String.eqb (lower s) (lower c)
  | None => false
  end.

(** [get_cities_by_country]: the names in order, or [None] when no row
    matches. *)
Definition get_cities_by_country (d : db) (country_name : string)
  : option (list (option string)) :=
  let results :=
    stable_sort name_ltb
      (map city_name (filter (country_is_lower country_name) (cities d))) in
  match results with
  | [] => None
  | _ => Some results
  end.

(** An element of ["indicators"] in the answer of [get_city_data]. *)
Record indicator_entry : Type := {
  e_code : option string;
  e_name : option string;
  e_year : option Z;
  e_value : option Q;
  e_status : option string
}.

Definition entry_of (r : indicator_row) : indicator_entry :=
  {| e_code := ind_indicator_code r; e_name := ind_indicator_name r;
     e_year := ind_year r; e_value := ind_value r; e_status := ind_status r |}.

(** The answer of [get_city_data]: the error dictionary, or the city with
    its indicators. *)
Inductive city_data : Type :=
| CityNotFound (code : string)
| CityData (code : string) (name ctry : option string)
    (inds : list indicator_entry).

(** Equality as [GROUP BY] and [DISTINCT] see it: NULL equals NULL. *)
Definition opt_string_eqb (a b : option string) : bool :=
  match a, b with
  | None, None => true
  | Some x, Some y => String.eqb x y
  | _, _ => false
  end.

(** The first occurrences, in order. *)
Fixpoint distinct {A : Type} (eqb : A -> A -> bool) (l : list A) : list A :=
  match l with
  | [] => []
  | x :: rest => x :: filter (fun y => negb (eqb x y)) (distinct eqb rest)
  end.

(** [SELECT indicator_code, indicator_name, MAX(year) as year, value,
    status ... GROUP BY indicator_code ORDER BY indicator_code]: SQLite
    takes the other columns from a row that holds the maximum; among
    several the model takes the one [latest_of] takes. *)
Definition latest_entries (rows : list indicator_row) : list indicator_entry :=
  flat_map
    (fun k =>
       match latest_of
               (filter (fun r => opt_string_eqb (ind_indicator_code r) k) rows)
               None with
       | Some r => [entry_of r]
       | None => []
       end)
    (stable_sort name_ltb (distinct opt_string_eqb (map ind_indicator_code rows))).

(** [ORDER BY indicator_code, year DESC] *)
Definition year_ltb (a b : option Z) : bool :=
  match a, b with
  | None, Some _ => true
  | Some x, Some y => x <? y
  | _, _ => false
  end.

Definition code_year_before (a b : indicator_row) : bool :=
  name_ltb (ind_indicator_code a) (ind_indicator_code b)
  || (opt_string_eqb (ind_indicator_code a) (ind_indicator_code b)
      && year_ltb (ind_year b) (ind_year a)).

Definition get_city_data (d : db) (code : string) (latest_only : bool) : city_data :=
  match find (fun r => String.eqb (city_code r) code) (cities d) with
  | None => CityNotFound code
  | Some city_info =>
      let rows := filter (fun r => String.eqb (ind_city_code r) code) (indicators d) in
      CityData code (city_name city_info) (country city_info)
        (if latest_only then latest_entries rows
         else map entry_of (stable_sort code_year_before rows))
  end.

(** [SELECT DISTINCT indicator_code, indicator_name FROM indicators ORDER
    BY indicator_code] *)
Definition pair_eqb (a b : option string * option string) : bool :=
  opt_string_eqb (fst a) (fst b) && opt_string_eqb (snd a) (snd b).

Definition list_available_indicators (d : db)
  : list (option string * option string) :=
  stable_sort (fun a b => name_ltb (fst a) (fst b))
    (distinct pair_eqb
       (map (fun r => (ind_indicator_code r, ind_indicator_name r)) (indicators d))).

(** ** The tools of [main.py] over the data manager *)

(** [rank_towns_by_country]: [None] is the error answer "Must provide
    country or country_code"; the JSON text of the answer is not
    modelled. *)
Definition rank_towns_by_country (d : db) (weights : dict Q)
    (country country_code : option string) (limit : Z)
  : option (result (list ranking)) :=
  match truthy country_code with
  | Some country_name => Some (rank_cities_advanced d weights country_name limit)
  | None =>
      match truthy country with
      | Some country_name => Some (rank_cities_advanced d weights country_name limit)
      | None => None
      end
  end.

Definition ranking_country (r : ranking) : option string :=
  match r with
  | Scored _ _ ctry _ => ctry
  | ByPopulation _ ctry _ => ctry
  end.

(** ** Orders the statements use *)

(** [a] may stand in front of [b] in a list sorted with [before]. *)
Definition may_precede {A : Type} (before : A -> A -> bool) (a b : A) : Prop :=
  before b a = false.

Definition codes_unique (table : list city_row) : Prop :=
  NoDup (map city_code table).

(** The records a batch has counted as skipped, failed or stored. *)
Definition handled (c : counters) : Z := skipped c + errors c + indicators_added c.

(** The store and the counters a batch leaves; the store as it was when
    the batch raises. *)
Definition rows_of_store (r : result (db * counters)) : db * counters :=
  match r with
  | Ok x => x
  | Raise _ => ({| cities := []; indicators := [] |}, zero_counters)
  end.

(** The file has a row of this code. *)
Definition in_file (rows : list city_row) (r : city_row) : bool :=
  existsb (fun r' => String.eqb (city_code r') (city_code r)) rows.

(** ** Letter case *)

(** Every byte. *)
Definition all_ascii : list ascii := map ascii_of_nat (seq 0 256).

(** Two bytes that are the same byte, or the small and the capital form
    of one of the letters a-z (the small letters are the bytes 97..122,
    each capital is 32 below). *)
Definition same_letter (a b : ascii) : bool :=
  let m := N_of_ascii a in
  let n := N_of_ascii b in
  (Ascii.eqb a b
   || ((97 <=? m) && (m <=? 122) && (n =? m - 32))
   || ((97 <=? n) && (n <=? 122) && (m =? n - 32)))%N.

(** Two strings that are equal except in the case of the letters a-z:
    of one length, and byte by byte the same letter. *)
Fixpoint equal_up_to_ascii_case (s t : string) : bool :=
  match s, t with
  | EmptyString, EmptyString => true
  | String a s', String b t' => same_letter a b && equal_up_to_ascii_case s' t'
  | _, _ => false
  end.

(** The second byte of a small letter of U+00E0..U+00FE in UTF-8, whose
    first byte is 195: one of 160..190, and not 183, the division sign. *)
Definition latin1_small (c : ascii) : bool :=
  let n := N_of_ascii c in
  ((160 <=? n) && (n <=? 190) && negb (n =? 183))%N.

(** Capitals of UTF-8 text where letter case is not that of a-z alone:
    the letters a-z, and the letters U+00E0..U+00FE, whose capital is the
    character 32 below, with the same first byte.  This is the notion of
    letter case of a reader of the text, as Python's [str.upper] has it on
    these letters; the program calls no function that computes it on a
    country. *)
Fixpoint utf8_upper (s : string) : string :=
  match s with
  | EmptyString => EmptyString
  | String c s' =>
      match s' with
      | String c2 s'' =>
          if (N_of_ascii c =? 195)%N && latin1_small c2
          then String c (String (ascii_of_N (N_of_ascii c2 - 32)) (utf8_upper s''))
          else String (ascii_upper c) (utf8_upper s')
      | EmptyString => String (ascii_upper c) EmptyString
      end
  end.

(** The UTF-8 text of Cote with a circumflex on the o (U+00F4, the bytes
    195 180), and of the same word in capitals (U+00D4, the bytes 195 148). *)
Definition cote : string :=
  String "C" (String (ascii_of_N 195) (String (ascii_of_N 180) "te")).

Definition cote_capitals : string :=
  String "C" (String (ascii_of_N 195) (String (ascii_of_N 148) "TE")).

(** A gazetteer row of that country, and a store that holds it with one
    observation. *)
Definition abidjan : city_row :=
  {| city_code := "CI001C"; city_name := Some "Abidjan"; country := Some cote;
     lat := None; lng := None; population := Some 4700000 |}.

Definition cote_db : db :=
  {| cities := [abidjan];
     indicators := [observation "CI001C" "TT1" "Population" 2020 42%Q] |}.

(** * Properties *)

(** ** The definitions on small inputs *)

Example index_to_coords_example :
  _index_to_coords 5 [2; 3] = Ok [1; 2] /\
  _index_to_coords 4 [2; 3] = Ok [1; 1] /\
  _index_to_coords 7 [2; 2; 2] = Ok [1; 1; 1] /\
  _index_to_coords 3 [2; 0] = Raise ZeroDivisionError /\
  coords_to_index [1; 2] [2; 3] = 5.
Proof. repeat split. Qed.

Example str_methods_example :
  lower "Cost in EUR (%)" = "cost in eur (%)" /\
  upper (str_take 2 "fr001C") = "FR" /\
  endswith "FR001C" "C" = true /\
  endswith "XX001" "C" = false /\
  endswith "cities" "ies" = true /\
  startswith "indic_ur" "indic" = true /\
  startswith "ind" "indic" = false /\
  contains "travel time in minutes" "minutes" = true /\
  contains "minute" "minutes" = false.
Proof. repeat split. Qed.

Example dict_example :
  dict_set [("a", 1); ("b", 2)] "a" 3 = [("a", 3); ("b", 2)] /\
  dict_set [("a", 1); ("b", 2)] "c" 3 = [("a", 1); ("b", 2); ("c", 3)] /\
  dict_get [("a", 1); ("b", 2)] "b" = Some 2 /\
  dict_get [("a", 1); ("b", 2)] "c" = None.
Proof. repeat split. Qed.

Example status_get_example :
  status_get [(KStr "0", "e")] (KInt 0) "" = "" /\
  status_get [(KInt 0, "e")] (KInt 0) "" = "e".
Proof. split; reflexivity. Qed.

Example round_example :
  (py_round3 (1 # 3) == 333 # 1000)%Q /\
  (py_round3 (2 # 3) == 667 # 1000)%Q /\
  (py_round3 (5 # 10000) == 0)%Q /\
  (py_round3 (15 # 10000) == 2 # 1000)%Q.
Proof. repeat split. Qed.

Example sort_and_slice_example :
  stable_sort Z.ltb [3; 1; 2] = [1; 2; 3] /\
  stable_sort (fun a b => snd b <? snd a) [("a", 1); ("b", 2); ("c", 1); ("d", 2)]
  = [("b", 2); ("d", 2); ("a", 1); ("c", 1)] /\
  py_take 2 [1; 2; 3] = [1; 2] /\
  py_take (-1) [1; 2; 3] = [1; 2] /\
  py_take (-5) [1; 2; 3] = [] /\
  sql_limit (-1) [1; 2; 3] = [1; 2; 3] /\
  sql_limit 2 [1; 2; 3] = [1; 2].
Proof. repeat split. Qed.

Example decimal_int_example :
  decimal_int "2020" = Some 2020 /\
  decimal_int "-7" = Some (-7) /\
  decimal_int "20x0" = None /\
  decimal_int "" = None.
Proof. repeat split. Qed.

(** The scenario of the specification: one entity, one indicator, one
    year. *)
Example store_data_scenario :
  store_data example_builtins empty_db (one_cell dated_dims 42%Q)
  = Ok ({| cities := [city_of "FR001C" "FR"];
           indicators :=
             [{| ind_city_code := "FR001C"; ind_indicator_code := Some "TT1";
                 ind_indicator_name := Some "TT1"; ind_year := Some 2020;
                 ind_value := Some 42%Q; ind_status := Some "" |}] |},
        {| cities_added := 1; indicators_added := 1; skipped := 0; errors := 0 |}).
Proof. reflexivity. Qed.
Section CoordinateDecoder.

Lemma index_to_coords_loop_digits rsizes :
  Forall (fun s => s <> 0) rsizes ->
  forall index coords,
    index_to_coords_loop rsizes index coords = Ok (coords ++ digits rsizes index).
Proof.
  induction 1 as [|s rest Hs _ IH]; intros index coords; simpl.
  - now rewrite app_nil_r.
  - destruct (Z.eqb_spec s 0) as [->|_]; [contradiction|].
    rewrite IH, <- app_assoc. reflexivity.
Qed.

Lemma index_to_coords_loop_zero rsizes :
  In 0 rsizes ->
  forall index coords,
    index_to_coords_loop rsizes index coords = Raise ZeroDivisionError.
Proof.
  induction rsizes as [|s rest IH]; intros Hin index coords; simpl in *.
  - contradiction.
  - destruct (Z.eqb_spec s 0) as [->|Hs]; [reflexivity|].
    destruct Hin as [->|Hin]; [contradiction|]. now apply IH.
Qed.

Lemma digits_length rsizes index : length (digits rsizes index) = length rsizes.
Proof.
  revert index. induction rsizes as [|s rest IH]; intros index; simpl; auto.
Qed.

Lemma digits_bounds rsizes :
  Forall (fun s => 0 < s) rsizes ->
  forall index, Forall2 (fun c s => 0 <= c < s) (digits rsizes index) rsizes.
Proof.
  induction 1 as [|s rest Hs _ IH]; intros index; simpl; constructor.
  - apply Z.mod_pos_bound. exact Hs.
  - apply IH.
Qed.

Lemma product_pos sizes : Forall (fun s => 0 < s) sizes -> 0 < product sizes.
Proof.
  induction 1 as [|s rest Hs _ IH]; simpl; [lia|]. now apply Z.mul_pos_pos.
Qed.

Lemma product_app l1 l2 : product (l1 ++ l2) = product l1 * product l2.
Proof.
  induction l1 as [|s l1 IH]; simpl.
  - now destruct (product l2).
  - rewrite IH. ring.
Qed.

Lemma product_rev sizes : product (rev sizes) = product sizes.
Proof.
  induction sizes as [|s rest IH]; simpl; [reflexivity|].
  rewrite product_app, IH. simpl. ring.
Qed.

Lemma encode_rev_digits rsizes :
  Forall (fun s => 0 < s) rsizes ->
  forall index, 0 <= index < product rsizes ->
    encode_rev (digits rsizes index) rsizes = index.
Proof.
  induction 1 as [|s rest Hs Hrest IH]; intros index Hi; simpl in *.
  - lia.
  - rewrite IH.
    + rewrite Z.add_comm. symmetry. apply Z.div_mod. lia.
    + split.
      * apply Z.div_pos; lia.
      * apply Z.div_lt_upper_bound; lia.
Qed.

Lemma Forall2_rev_rev {A B} (P : A -> B -> Prop) l1 l2 :
  Forall2 P l1 l2 -> Forall2 P (rev l1) (rev l2).
Proof.
  induction 1 as [|a b l1 l2 Hab _ IH]; simpl; [constructor|].
  apply Forall2_app; [exact IH|]. constructor; [exact Hab|constructor].
Qed.

Lemma index_to_coords_Ok index sizes :
  Forall (fun s => s <> 0) sizes ->
  _index_to_coords index sizes = Ok (rev (digits (rev sizes) index)).
Proof.
  intros H. unfold _index_to_coords.
  rewrite index_to_coords_loop_digits by (now apply Forall_rev).
  reflexivity.
Qed.

Lemma index_to_coords_length index sizes coords :
  _index_to_coords index sizes = Ok coords -> length coords = length sizes.
Proof.
  unfold _index_to_coords.
  destruct (in_dec Z.eq_dec 0 (rev sizes)) as [Hin|Hnin].
  - rewrite index_to_coords_loop_zero by exact Hin. discriminate.
  - rewrite index_to_coords_loop_digits.
    + simpl. intros [= <-]. now rewrite length_rev, digits_length, length_rev.
    + apply Forall_forall. intros s Hs ->. contradiction.
Qed.

End CoordinateDecoder.

Lemma pos_nonzero sizes :
  Forall (fun s => 0 < s) sizes -> Forall (fun s => s <> 0) sizes.
Proof. apply Forall_impl. intros; lia. Qed.

(** C5. For positive dimension sizes and a flat index [0 <= i < product sizes],
    the coordinate decoder returns one coordinate per dimension, in the order
    of [sizes], each within its dimension's range; the last dimension varies
    fastest (its coordinate is [i mod] the last size); and re-encoding the
    coordinates with the last dimension at stride 1 gives back [i]. *)
Theorem index_to_coords_roundtrip (sizes : list Z) (i : Z) :
  Forall (fun s => 0 < s) sizes ->
  0 <= i < product sizes ->
  exists coords,
    _index_to_coords i sizes = Ok coords /\
    length coords = length sizes /\
    Forall2 (fun c s => 0 <= c < s) coords sizes /\
    (forall front s, sizes = front ++ [s] ->
       exists cfront, coords = cfront ++ [i mod s]) /\
    coords_to_index coords sizes = i.
Proof.
  intros Hpos Hi.
  exists (rev (digits (rev sizes) i)).
  split; [apply index_to_coords_Ok, pos_nonzero, Hpos|].
  split; [now rewrite length_rev, digits_length, length_rev|].
  split.
  { rewrite <- (rev_involutive sizes) at 2. apply Forall2_rev_rev.
    apply digits_bounds. now apply Forall_rev. }
  split.
  { intros front s ->. rewrite rev_app_distr. simpl.
    exists (rev (digits (rev front) (i / s))). reflexivity. }
  unfold coords_to_index. rewrite rev_involutive.
  apply encode_rev_digits.
  - now apply Forall_rev.
  - now rewrite product_rev.
Qed.

(** The round trip at index 5 of a 2 x 3 cube. *)
Lemma index_to_coords_roundtrip_witness :
  exists coords,
    _index_to_coords 5 [2; 3] = Ok coords /\
    length coords = length [2; 3] /\
    Forall2 (fun c s => 0 <= c < s) coords [2; 3] /\
    (forall front s, [2; 3] = front ++ [s] ->
       exists cfront, coords = cfront ++ [5 mod s]) /\
    coords_to_index coords [2; 3] = 5.
Proof.
  apply (index_to_coords_roundtrip [2; 3] 5).
  - repeat constructor.
  - vm_compute. split; [discriminate|reflexivity].
Defined.


(** ** Dictionaries *)

Section Dictionaries.
Context {V : Type}.

Lemma dict_get_set_eq (d : dict V) k v : dict_get (dict_set d k v) k = Some v.
Proof.
  induction d as [|[k' v'] d IH]; simpl.
  - now rewrite String.eqb_refl.
  - destruct (String.eqb k' k) eqn:E; simpl.
    + now rewrite String.eqb_refl.
    + now rewrite E.
Qed.

Lemma dict_get_set_ne (d : dict V) k k' v :
  k <> k' -> dict_get (dict_set d k v) k' = dict_get d k'.
Proof.
  intros Hne. induction d as [|[k0 v0] d IH]; simpl.
  - destruct (String.eqb_spec k k'); [contradiction|reflexivity].
  - destruct (String.eqb_spec k0 k) as [->|Hk]; simpl.
    + destruct (String.eqb_spec k k'); [contradiction|reflexivity].
    + destruct (String.eqb_spec k0 k'); [reflexivity|exact IH].
Qed.
End Dictionaries.

(** ** CubeDecoder *)

Section CubeDecoder.

Lemma decode_dims_Ok dimensions names :
  forall coords rec,
    (length names <= length coords)%nat ->
    exists rec', decode_dims dimensions names coords rec = Ok rec'.
Proof.
  induction names as [|n names IH]; intros coords rec Hlen; simpl.
  - now exists rec.
  - destruct coords as [|c coords]; simpl in Hlen; [lia|].
    apply IH. lia.
Qed.

Lemma decode_dims_raises dimensions names :
  forall coords rec e,
    decode_dims dimensions names coords rec = Raise e -> e = IndexError.
Proof.
  induction names as [|n names IH]; intros coords rec e; simpl.
  - discriminate.
  - destruct coords as [|c coords]; [now intros [= <-]|]. apply IH.
Qed.

Lemma index_to_coords_raises index sizes e :
  _index_to_coords index sizes = Raise e -> e = ZeroDivisionError.
Proof.
  unfold _index_to_coords.
  destruct (in_dec Z.eq_dec 0 (rev sizes)) as [Hin|Hnin].
  - rewrite index_to_coords_loop_zero by exact Hin. simpl. now intros [= <-].
  - rewrite index_to_coords_loop_digits.
    + discriminate.
    + apply Forall_forall. intros s Hs ->. contradiction.
Qed.

(** What a decoded cell holds under its [value] and [status] keys. *)
Lemma decode_cell_fields data idx value rec :
  decode_cell data idx value = Ok rec ->
  dict_get rec "value" = Some (cell value) /\
  dict_get rec "status" =
    Some (PStr (match cube_status data with
                | [] => ""
                | _ => status_get (cube_status data) (KInt idx) ""
                end)).
Proof.
  unfold decode_cell.
  destruct (_index_to_coords idx (cube_size data)) as [coords|]; simpl; [|discriminate].
  destruct (decode_dims _ _ coords []) as [r|]; simpl; [|discriminate].
  intros [= <-]. split.
  - rewrite dict_get_set_ne by discriminate. apply dict_get_set_eq.
  - apply dict_get_set_eq.
Qed.

Lemma decode_cell_Ok data idx value :
  Forall (fun s => s <> 0) (cube_size data) ->
  (length (cube_id data) <= length (cube_size data))%nat ->
  exists rec, decode_cell data idx value = Ok rec.
Proof.
  intros Hnz Hlen. unfold decode_cell.
  rewrite index_to_coords_Ok by exact Hnz. simpl.
  destruct (decode_dims_Ok (cube_dimension data) (cube_id data)
              (rev (digits (rev (cube_size data)) idx)) []) as [r Hr].
  - now rewrite length_rev, digits_length, length_rev.
  - rewrite Hr. simpl. eauto.
Qed.

Lemma decode_cell_raises data idx value e :
  decode_cell data idx value = Raise e ->
  e = ZeroDivisionError \/ e = IndexError.
Proof.
  unfold decode_cell.
  destruct (_index_to_coords idx (cube_size data)) as [coords|e0] eqn:Hc; simpl.
  - destruct (decode_dims _ _ coords []) as [r|e1] eqn:Hd; simpl; [discriminate|].
    intros [= <-]. right. eapply decode_dims_raises, Hd.
  - intros [= <-]. left. eapply index_to_coords_raises, Hc.
Qed.

Lemma decode_cells_length data values :
  forall idx records,
    decode_cells data idx values = Ok records -> length records = length values.
Proof.
  induction values as [|v values IH]; intros idx records; simpl.
  - now intros [= <-].
  - destruct (decode_cell data idx v); simpl; [|discriminate].
    destruct (decode_cells data (idx + 1) values) eqn:E; simpl; [|discriminate].
    intros [= <-]. simpl. f_equal. eapply IH, E.
Qed.

Lemma decode_cells_Ok data values :
  Forall (fun s => s <> 0) (cube_size data) ->
  (length (cube_id data) <= length (cube_size data))%nat ->
  forall idx, exists records, decode_cells data idx values = Ok records.
Proof.
  intros Hnz Hlen. induction values as [|v values IH]; intros idx; simpl.
  - eauto.
  - destruct (decode_cell_Ok data idx v Hnz Hlen) as [r ->]. simpl.
    destruct (IH (idx + 1)) as [rs ->]. simpl. eauto.
Qed.

Lemma decode_cells_raises data values :
  forall idx e,
    decode_cells data idx values = Raise e ->
    e = ZeroDivisionError \/ e = IndexError.
Proof.
  induction values as [|v values IH]; intros idx e; simpl.
  - discriminate.
  - destruct (decode_cell data idx v) eqn:Hc; simpl.
    + destruct (decode_cells data (idx + 1) values) eqn:E; simpl; [discriminate|].
      intros [= <-]. eapply IH, E.
    + intros [= <-]. eapply decode_cell_raises, Hc.
Qed.

(** The record of flat index [idx0 + n] holds [values[n]] and the entry
    of the status object under the integer key. *)
Lemma decode_cells_nth data values :
  forall idx0 records n rec,
    decode_cells data idx0 values = Ok records ->
    nth_error records n = Some rec ->
    exists value,
      nth_error values n = Some value /\
      decode_cell data (idx0 + Z.of_nat n) value = Ok rec.
Proof.
  induction values as [|v values IH]; intros idx0 records n rec; simpl.
  - intros [= <-]. now destruct n.
  - destruct (decode_cell data idx0 v) as [r|] eqn:Hc; simpl; [|discriminate].
    destruct (decode_cells data (idx0 + 1) values) as [rs|] eqn:E; simpl; [|discriminate].
    intros [= <-]. destruct n as [|n]; simpl.
    + intros [= <-]. exists v. now rewrite Z.add_0_r.
    + intros Hn. destruct (IH _ _ _ _ E Hn) as (value & Hv & Hd).
      exists value. split; [exact Hv|].
      replace (idx0 + Z.pos (Pos.of_succ_nat n)) with (idx0 + 1 + Z.of_nat n) by lia.
      exact Hd.
Qed.

End CubeDecoder.

(** The decoder accepts a cube whose sizes multiply to 2 while the value
    array has one element. *)
Lemma parse_jsonstat_accepts_bad_shape :
  product (cube_size short_cube) <> Z.of_nat (length (cube_value short_cube)) /\
  parse_jsonstat short_cube =
    Ok [[("cities", PStr "FR001C"); ("cities_label", PStr "Paris");
         ("value", PNum 42%Q); ("status", PStr "")]].
Proof. split; [discriminate|reflexivity]. Qed.

(** C6 (amended). For a cube whose sizes have a product different from the
    length of the value array, the decoder makes no shape check: it returns
    one record per element of the value array whenever no declared size is
    zero and there are at least as many sizes as dimension names, and an
    exception it raises is ZeroDivisionError or IndexError. *)
Theorem parse_jsonstat_no_shape_check (data : cube) :
  product (cube_size data) <> Z.of_nat (length (cube_value data)) ->
  (Forall (fun s => s <> 0) (cube_size data) ->
   (length (cube_id data) <= length (cube_size data))%nat ->
   exists records,
     parse_jsonstat data = Ok records /\
     length records = length (cube_value data)) /\
  (forall records, parse_jsonstat data = Ok records ->
     length records = length (cube_value data)) /\
  (forall e, parse_jsonstat data = Raise e ->
     e = ZeroDivisionError \/ e = IndexError).
Proof.
  intros _. unfold parse_jsonstat. repeat split.
  - intros Hnz Hlen.
    destruct (decode_cells_Ok data (cube_value data) Hnz Hlen 0) as [rs Hrs].
    exists rs. split; [exact Hrs|]. eapply decode_cells_length, Hrs.
  - intros rs. apply decode_cells_length.
  - intros e. apply decode_cells_raises.
Qed.

(** The cube of declared size 2 and one value decodes to one record. *)
Lemma parse_jsonstat_no_shape_check_witness :
  exists records,
    parse_jsonstat short_cube = Ok records /\
    length records = length (cube_value short_cube).
Proof.
  apply (parse_jsonstat_no_shape_check short_cube).
  - discriminate.
  - repeat constructor; discriminate.
  - simpl. lia.
Defined.

(** C7. The decoded record of flat index 0 carries the code, the label and
    the value, but its status is the empty string although the status
    object has the entry ["e"] for index 0: the lookup uses the integer,
    the object's key is the text. *)
Theorem parse_jsonstat_status_lost :
  product (cube_size flagged_cube) = Z.of_nat (length (cube_value flagged_cube)) /\
  status_get (cube_status flagged_cube) (KStr "0") "" = "e" /\
  parse_jsonstat flagged_cube =
    Ok [[("cities", PStr "FR001C"); ("cities_label", PStr "Paris");
         ("value", PNum 42%Q); ("status", PStr "")]].
Proof. repeat split. Qed.

(** X5. The parts of the decoding that hold for every cube: one record per
    value, in flat-index order, each with the cell's value, and with the
    status the object has under the integer key. *)
Lemma parse_jsonstat_records (data : cube) records :
  parse_jsonstat data = Ok records ->
  length records = length (cube_value data) /\
  forall n rec, nth_error records n = Some rec ->
    exists value,
      nth_error (cube_value data) n = Some value /\
      dict_get rec "value" = Some (cell value) /\
      dict_get rec "status" =
        Some (PStr (match cube_status data with
                    | [] => ""
                    | _ => status_get (cube_status data) (KInt (Z.of_nat n)) ""
                    end)).
Proof.
  unfold parse_jsonstat. intros H. split; [eapply decode_cells_length, H|].
  intros n rec Hn.
  destruct (decode_cells_nth _ _ _ _ _ _ H Hn) as (value & Hv & Hd).
  exists value. split; [exact Hv|].
  apply (decode_cell_fields data (0 + Z.of_nat n) value rec Hd).
Qed.

(** ** The shape of decoded records *)

Section DecodedRecords.

Lemma first_key_set (p : string -> bool) (rec : record) k v :
  first_key p (dict_set rec k v)
  = match first_key p rec with
    | Some x => Some x
    | None => if p k then Some k else None
    end.
Proof.
  unfold first_key, dict_keys.
  induction rec as [|[k0 v0] rec IH]; simpl; [reflexivity|].
  destruct (String.eqb_spec k0 k) as [->|Hne]; simpl.
  - destruct (p k); [reflexivity|]. now destruct (find p (map fst rec)).
  - destruct (p k0); [reflexivity|exact IH].
Qed.

Lemma dict_get_set_text (rec : record) k k' s' :
  (exists s, dict_get rec k = Some (PStr s)) ->
  exists s, dict_get (dict_set rec k' (PStr s')) k = Some (PStr s).
Proof.
  intros H. destruct (String.eqb_spec k' k) as [->|Hne].
  - rewrite dict_get_set_eq. eauto.
  - now rewrite dict_get_set_ne.
Qed.

Lemma startswith_label dn :
  startswith (String.append dn "_label") "indic" = true ->
  startswith dn "indic" = true.
Proof.
  do 5 (destruct dn as [|? dn];
        [simpl; rewrite ?andb_false_r; discriminate|]).
  simpl. auto.
Qed.

Lemma startswith_append k p x :
  startswith k p = true -> startswith (String.append k x) p = true.
Proof.
  revert k. induction p as [|a p IH]; intros k; [now destruct k|].
  destruct k as [|b k]; simpl; [discriminate|].
  rewrite !andb_true_iff. intros [H1 H2]. split; [exact H1|now apply IH].
Qed.

Lemma endswith_append k p : endswith (String.append k p) p = true.
Proof.
  induction k as [|a k IH]; simpl.
  - destruct p; simpl; [reflexivity|].
    now rewrite Ascii.eqb_refl, String.eqb_refl.
  - rewrite IH. apply orb_true_r.
Qed.

Lemma label_key_not_value k : String.append k "_label" <> "value".
Proof.
  intros H. pose proof (endswith_append k "_label") as He.
  rewrite H in He. discriminate.
Qed.

Lemma texts_set rec k s : texts rec -> texts (dict_set rec k (PStr s)).
Proof.
  intros H k' v. destruct (String.eqb_spec k k') as [->|Hne].
  - rewrite dict_get_set_eq. intros [= <-]. eauto.
  - rewrite dict_get_set_ne by exact Hne. apply H.
Qed.

Lemma decode_dim_texts dimensions dn idx rec :
  texts rec -> texts (decode_dim dimensions dn idx rec).
Proof.
  intros H. unfold decode_dim.
  destruct (find_code _ idx); [|exact H]. now apply texts_set, texts_set.
Qed.

Lemma decode_dim_labelled dimensions dn idx rec :
  labelled rec -> labelled (decode_dim dimensions dn idx rec).
Proof.
  intros H. unfold decode_dim.
  destruct (find_code _ idx) as [key|]; [|exact H].
  intros k. rewrite !first_key_set.
  destruct (first_key _ rec) as [k0|] eqn:Hk0.
  - intros [= <-]. apply dict_get_set_text, dict_get_set_text, H, Hk0.
  - destruct (startswith dn "indic") eqn:Hdn.
    + intros [= <-]. rewrite dict_get_set_eq. eauto.
    + destruct (startswith (String.append dn "_label") "indic") eqn:Hl;
        [|discriminate].
      apply startswith_label in Hl. congruence.
Qed.

Lemma decode_dims_shape dimensions names :
  forall coords rec rec',
    texts rec -> labelled rec ->
    decode_dims dimensions names coords rec = Ok rec' ->
    texts rec' /\ labelled rec'.
Proof.
  induction names as [|dn names IH]; intros coords rec rec' Ht Hl; simpl.
  - intros [= <-]. auto.
  - destruct coords as [|idx coords]; [discriminate|].
    apply IH; [now apply decode_dim_texts|now apply decode_dim_labelled].
Qed.

Lemma decode_cell_decoded data idx value rec :
  decode_cell data idx value = Ok rec -> decoded rec.
Proof.
  unfold decode_cell.
  destruct (_index_to_coords idx (cube_size data)) as [coords|]; simpl; [|discriminate].
  destruct (decode_dims _ _ coords []) as [rec0|] eqn:Hd; simpl; [|discriminate].
  destruct (decode_dims_shape _ _ _ _ _ (fun k v (H : dict_get [] k = Some v) =>
              ltac:(discriminate)) (fun k (H : first_key _ [] = Some k) =>
              ltac:(discriminate)) Hd) as [Ht Hl].
  intros [= <-]. repeat split.
  - intros k v Hget Hk.
    destruct (String.eqb_spec "status" k) as [<-|Hs].
    + rewrite dict_get_set_eq in Hget. injection Hget as <-. eauto.
    + rewrite dict_get_set_ne in Hget by exact Hs.
      rewrite dict_get_set_ne in Hget by congruence. eapply Ht, Hget.
  - intros v. rewrite dict_get_set_ne by discriminate.
    rewrite dict_get_set_eq. intros [= <-]. destruct value; simpl; eauto.
  - intros k. rewrite !first_key_set. cbn [startswith Ascii.eqb andb].
    destruct (first_key _ rec0) as [k0|] eqn:Hk0; [|discriminate].
    intros [= <-].
    assert (Hp : startswith (String.append k0 "_label") "indic" = true).
    { apply startswith_append. unfold first_key in Hk0.
      now apply find_some in Hk0 as [_ Hk0]. }
    rewrite !dict_get_set_ne by (intros E; rewrite <- E in Hp; discriminate).
    apply Hl, Hk0.
Qed.

Lemma decode_cells_decoded data values :
  forall idx records,
    decode_cells data idx values = Ok records -> Forall decoded records.
Proof.
  induction values as [|v values IH]; intros idx records; simpl.
  - intros [= <-]. constructor.
  - destruct (decode_cell data idx v) as [rec|] eqn:Hc; simpl; [|discriminate].
    destruct (decode_cells data (idx + 1) values) as [rs|] eqn:E; simpl;
      [|discriminate].
    intros [= <-]. constructor; [eapply decode_cell_decoded, Hc|eapply IH, E].
Qed.

Lemma parse_jsonstat_decoded data records :
  parse_jsonstat data = Ok records -> Forall decoded records.
Proof. apply decode_cells_decoded. Qed.

End DecodedRecords.

(** ** The dimension fields of a decoded record *)

Section DimensionFields.

Lemma append_length a s :
  String.length (String.append a s) = (String.length a + String.length s)%nat.
Proof. induction a as [|c a IH]; simpl; [reflexivity|now rewrite IH]. Qed.

Lemma append_cancel_r a b s : String.append a s = String.append b s -> a = b.
Proof.
  revert b. induction a as [|x a IH]; intros [|y b] H; simpl in H.
  - reflexivity.
  - apply (f_equal String.length) in H. simpl in H. rewrite append_length in H. lia.
  - apply (f_equal String.length) in H. simpl in H. rewrite append_length in H. lia.
  - injection H as -> H. f_equal. now apply IH.
Qed.

Variable dimensions : dict category.

Lemma decode_dim_other dn idx rec k :
  k <> dn -> k <> String.append dn "_label" ->
  dict_get (decode_dim dimensions dn idx rec) k = dict_get rec k.
Proof.
  intros H1 H2. unfold decode_dim.
  destruct (find_code _ idx); [|reflexivity].
  rewrite !dict_get_set_ne by congruence. reflexivity.
Qed.

Lemma decode_dims_other names :
  forall coords rec rec' k,
    decode_dims dimensions names coords rec = Ok rec' ->
    ~ In k names ->
    (forall dn, In dn names -> k <> String.append dn "_label") ->
    dict_get rec' k = dict_get rec k.
Proof.
  induction names as [|dn names IH]; intros coords rec rec' k; simpl.
  - now intros [= <-].
  - destruct coords as [|idx coords]; [discriminate|].
    intros Hd Hk Hl. rewrite (IH _ _ _ _ Hd).
    + apply decode_dim_other; [intros ->; apply Hk; now left|apply Hl; now left].
    + intros H. apply Hk. now right.
    + intros dn' H. apply Hl. now right.
Qed.

(** With distinct dimension names, none of which is the label key of
    another, every dimension whose index object has its coordinate leaves
    its category code and label in the record. *)
Lemma decode_dims_fields names :
  forall coords rec rec',
    decode_dims dimensions names coords rec = Ok rec' ->
    NoDup names ->
    (forall a b, In a names -> In b names -> String.append a "_label" <> b) ->
    forall j dn idx key,
      nth_error names j = Some dn ->
      nth_error coords j = Some idx ->
      find_code (cat_index (indices dimensions dn)) idx = Some key ->
      dict_get rec' dn = Some (PStr key) /\
      dict_get rec' (String.append dn "_label")
      = Some (PStr (label_of (cat_label (indices dimensions dn)) key)).
Proof.
  induction names as [|dn0 names IH]; intros coords rec rec' Hd Hnd Hlab j dn idx key.
  - now destruct j.
  - destruct coords as [|idx0 coords]; [discriminate|]. simpl in Hd.
    inversion Hnd as [|? ? Hnotin Hnd']; subst.
    destruct j as [|j]; simpl.
    + intros [= <-] [= <-] Hfind.
      assert (Hself : String.append dn0 "_label" <> dn0).
      { apply Hlab; now left. }
      rewrite (decode_dims_other _ _ _ _ dn0 Hd Hnotin).
      2: { intros dn Hin E. apply (Hlab dn dn0); [now right|now left|auto]. }
      rewrite (decode_dims_other _ _ _ _ (String.append dn0 "_label") Hd).
      2: { intros Hin. apply (Hlab dn0 (String.append dn0 "_label")); auto.
           now left. now right. }
      2: { intros dn Hin E. apply append_cancel_r in E. subst dn. contradiction. }
      unfold decode_dim. rewrite Hfind. split.
      * rewrite dict_get_set_ne by exact Hself. apply dict_get_set_eq.
      * apply dict_get_set_eq.
    + intros Hn Hc Hfind.
      apply (IH _ _ _ Hd Hnd') with (j := j) (idx := idx); auto.
      intros a b Ha Hb. apply Hlab; now right.
Qed.

End DimensionFields.

(** The record of a cell carries the code and the label of every such
    dimension, next to [value] and [status]. *)
Lemma decode_cell_dimension_fields data idx value rec coords :
  decode_cell data idx value = Ok rec ->
  _index_to_coords idx (cube_size data) = Ok coords ->
  NoDup (cube_id data) ->
  (forall a b, In a (cube_id data) -> In b (cube_id data) ->
     String.append a "_label" <> b) ->
  ~ In "value" (cube_id data) ->
  ~ In "status" (cube_id data) ->
  forall j dn c key,
    nth_error (cube_id data) j = Some dn ->
    nth_error coords j = Some c ->
    find_code (cat_index (indices (cube_dimension data) dn)) c = Some key ->
    dict_get rec dn = Some (PStr key) /\
    dict_get rec (String.append dn "_label")
    = Some (PStr (label_of (cat_label (indices (cube_dimension data) dn)) key)).
Proof.
  unfold decode_cell. intros Hcell Hcoords Hnd Hlab Hv Hs j dn c key Hj Hc Hfind.
  rewrite Hcoords in Hcell. simpl in Hcell.
  destruct (decode_dims _ _ coords []) as [rec0|] eqn:Hd; simpl in Hcell;
    [|discriminate].
  injection Hcell as <-.
  destruct (decode_dims_fields _ _ _ _ _ Hd Hnd Hlab j dn c key Hj Hc Hfind)
    as [H1 H2].
  assert (Hin : In dn (cube_id data)) by (eapply nth_error_In, Hj).
  assert (Hl1 : "value" <> String.append dn "_label").
  { intros E. symmetry in E. now apply label_key_not_value in E. }
  assert (Hl2 : "status" <> String.append dn "_label").
  { intros E. pose proof (endswith_append dn "_label") as He.
    rewrite <- E in He. discriminate. }
  split.
  - rewrite !dict_get_set_ne by congruence. exact H1.
  - rewrite !dict_get_set_ne by assumption. exact H2.
Qed.

(** ** Normalizer *)

Section Normalizer.

Lemma first_rule_pos name : (0 < first_rule normalize_rules name)%Q.
Proof.
  unfold normalize_rules, first_rule.
  repeat match goal with
         | |- context [if ?b then _ else _] => destruct b
         end; reflexivity.
Qed.

Lemma normalize_value_spec value name :
  _normalize_value value name = normalize_spec value name.
Proof.
  unfold _normalize_value, normalize_spec, normalize_rules, first_rule,
    contains_nocase, py_min.
  change (lower "%") with "%". change (lower "minutes") with "minutes".
  change (lower "km") with "km". change (lower "eur") with "eur".
  change (lower "per 1000") with "per 1000".
  repeat match goal with
         | |- context [if contains ?a ?b then _ else _] => destruct (contains a b)
         end; reflexivity.
Qed.

Lemma Qdiv_le_compat (a b d : Q) : (0 < d -> a <= b -> a / d <= b / d)%Q.
Proof.
  intros Hd Hab. unfold Qdiv. apply Qmult_le_compat_r; [exact Hab|].
  apply Qlt_le_weak, Qinv_lt_0_compat, Hd.
Qed.

Lemma Qdiv_nonneg (a d : Q) : (0 < d -> 0 <= a -> 0 <= a / d)%Q.
Proof.
  intros Hd Ha. unfold Qdiv. apply Qmult_le_0_compat; [exact Ha|].
  apply Qlt_le_weak, Qinv_lt_0_compat, Hd.
Qed.

Lemma normalize_spec_le_1 value name : (normalize_spec value name <= 1)%Q.
Proof.
  unfold normalize_spec. destruct Qlt_le_dec as [_|H]; [apply Qle_refl|exact H].
Qed.

Lemma normalize_spec_nonneg value name :
  (0 <= value -> 0 <= normalize_spec value name)%Q.
Proof.
  intros Hv. unfold normalize_spec. destruct Qlt_le_dec as [_|_]; [discriminate|].
  apply Qdiv_nonneg; [apply first_rule_pos|exact Hv].
Qed.

Lemma normalize_spec_monotone v1 v2 name :
  (v1 <= v2 -> normalize_spec v1 name <= normalize_spec v2 name)%Q.
Proof.
  intros Hv. unfold normalize_spec.
  pose proof (Qdiv_le_compat v1 v2 _ (first_rule_pos name) Hv) as Hq.
  destruct (Qlt_le_dec 1 (v1 / _)) as [H1|H1];
    destruct (Qlt_le_dec 1 (v2 / _)) as [H2|H2].
  - apply Qle_refl.
  - exfalso. apply (Qlt_irrefl 1).
    eapply Qlt_le_trans; [exact H1|]. eapply Qle_trans; [exact Hq|exact H2].
  - exact H1.
  - exact Hq.
Qed.

End Normalizer.

(** C8. [_normalize_value] is the first-match rule table of the
    specification (percent /100, minutes /60, km /50, eur /100, per 1000
    /1000, otherwise /100000, each capped at 1); the name matters only up
    to letter case; the result is non-decreasing in the value, at most 1,
    and at least 0 for a non-negative value. *)
Theorem normalize_value_rules (value : Q) (indicator_name : string) :
  _normalize_value value indicator_name = normalize_spec value indicator_name /\
  (forall name', lower name' = lower indicator_name ->
     _normalize_value value name' = _normalize_value value indicator_name) /\
  (forall value', (value <= value')%Q ->
     (_normalize_value value indicator_name <= _normalize_value value' indicator_name)%Q) /\
  (_normalize_value value indicator_name <= 1)%Q /\
  ((0 <= value)%Q -> (0 <= _normalize_value value indicator_name)%Q).
Proof.
  split; [apply normalize_value_spec|].
  split; [intros name' Hn; unfold _normalize_value; now rewrite Hn|].
  rewrite !normalize_value_spec.
  split; [intros v' Hv; rewrite normalize_value_spec; now apply normalize_spec_monotone|].
  split; [apply normalize_spec_le_1|apply normalize_spec_nonneg].
Qed.

(** A percentage: monotone, non-negative, and blind to letter case. *)
Lemma normalize_value_rules_witness :
  (_normalize_value 42 "Share of green area (%)"
   <= _normalize_value 250 "Share of green area (%)")%Q /\
  (0 <= _normalize_value 42 "Share of green area (%)")%Q /\
  _normalize_value 42 "SHARE OF GREEN AREA (%)"
  = _normalize_value 42 "Share of green area (%)".
Proof.
  destruct (normalize_value_rules 42 "Share of green area (%)")
    as (_ & Hcase & Hmono & _ & Hpos).
  split; [apply Hmono; vm_compute; discriminate|].
  split; [apply Hpos; vm_compute; discriminate|].
  apply Hcase. reflexivity.
Defined.

(** The precedence of the rules on names that carry several markers. *)
Example normalize_precedence :
  _normalize_value 30 "Cost in EUR, % of income" = py_min (30 / 100) 1 /\
  _normalize_value 30 "Minutes per km" = py_min (30 / 60) 1 /\
  _normalize_value 30 "Km per 1000 EUR" = py_min (30 / 50) 1 /\
  _normalize_value 30 "EUR per 1000 inhabitants" = py_min (30 / 100) 1 /\
  _normalize_value 30 "Doctors per 1000 inhabitants" = py_min (30 / 1000) 1 /\
  _normalize_value 30 "Population" = py_min (30 / 100000) 1.
Proof. repeat split. Qed.

(** ** ScoringEngine *)

Section ScoringEngine.
Variable d : db.
Variable code : string.

Lemma score_step_skip acc item :
  contributes d code item = false -> score_step d code acc item = Ok acc.
Proof.
  destruct acc as [ts tw], item as [ind w].
  unfold contributes, observed, score_step. simpl.
  destruct (latest_row d code ind) as [r|]; [|reflexivity].
  destruct (ind_value r); [discriminate|reflexivity].
Qed.

Lemma score_step_add ts tw ind w value name :
  observed d code ind = Some (value, Some name) ->
  score_step d code (ts, tw) (ind, w)
  = Ok ((ts + adjusted value name * w)%Q, (tw + w)%Q).
Proof.
  unfold observed, score_step, adjusted.
  destruct (latest_row d code ind) as [r|]; [|discriminate].
  destruct (ind_value r); [|discriminate].
  intros [= -> ->]. reflexivity.
Qed.

Lemma score_step_null_name acc ind w value :
  observed d code ind = Some (value, None) ->
  score_step d code acc (ind, w) = Raise AttributeError.
Proof.
  destruct acc as [ts tw]. unfold observed, score_step.
  destruct (latest_row d code ind) as [r|]; [|discriminate].
  destruct (ind_value r); [|discriminate].
  now intros [= -> ->].
Qed.

Lemma score_loop_skip items :
  forallb (fun item => negb (contributes d code item)) items = true ->
  forall acc, score_loop d code items acc = Ok acc.
Proof.
  induction items as [|item items IH]; intros Hall acc; simpl in *; [reflexivity|].
  apply andb_prop in Hall as [H1 H2].
  rewrite score_step_skip by (now apply negb_true_iff). simpl. now apply IH.
Qed.

Lemma sums_cons_some ind w items value name :
  observed d code ind = Some (value, name) ->
  numerator d code ((ind, w) :: items)
  = (contribution d code (ind, w) + numerator d code items)%Q /\
  denominator d code ((ind, w) :: items) = (w + denominator d code items)%Q.
Proof.
  intros Hobs. unfold numerator, denominator. cbn [filter].
  assert (Hc : contributes d code (ind, w) = true).
  { unfold contributes. cbn [fst]. now rewrite Hobs. }
  rewrite Hc. split; reflexivity.
Qed.

Lemma sums_cons_none ind w items :
  observed d code ind = None ->
  numerator d code ((ind, w) :: items) = numerator d code items /\
  denominator d code ((ind, w) :: items) = denominator d code items.
Proof.
  intros Hobs. unfold numerator, denominator. cbn [filter].
  assert (Hc : contributes d code (ind, w) = false).
  { unfold contributes. cbn [fst]. now rewrite Hobs. }
  rewrite Hc. split; reflexivity.
Qed.

(** The loop computes the two sums of the specification. *)
Lemma score_loop_sums items :
  names_present d code items ->
  forall ts tw, exists ts' tw',
    score_loop d code items (ts, tw) = Ok (ts', tw') /\
    (ts' == ts + numerator d code items)%Q /\
    (tw' == tw + denominator d code items)%Q.
Proof.
  induction items as [|[ind w] items IH]; intros Hnames ts tw.
  - exists ts, tw. unfold numerator, denominator. simpl. repeat split; ring.
  - assert (Hrest : names_present d code items).
    { intros item value Hin. apply Hnames. now right. }
    cbn [score_loop].
    destruct (observed d code ind) as [[value [name|]]|] eqn:Hobs.
    + rewrite (score_step_add _ _ _ _ _ _ Hobs). cbn [bind].
      destruct (IH Hrest (ts + adjusted value name * w)%Q (tw + w)%Q)
        as (ts' & tw' & Hloop & Hts & Htw).
      exists ts', tw'. split; [exact Hloop|].
      destruct (sums_cons_some ind w items _ _ Hobs) as [-> ->].
      unfold contribution. cbn [fst snd]. rewrite Hobs.
      rewrite Hts, Htw. split; ring.
    + exfalso. apply (Hnames (ind, w) value); [now left|exact Hobs].
    + rewrite score_step_skip by (unfold contributes; cbn [fst]; now rewrite Hobs).
      cbn [bind]. destruct (sums_cons_none ind w items Hobs) as [-> ->].
      apply IH, Hrest.
Qed.

Lemma denominator_nonneg items :
  Forall (fun item => (0 < snd item)%Q) items ->
  (0 <= denominator d code items)%Q.
Proof.
  unfold denominator.
  induction 1 as [|item items Hw _ IH]; simpl; [apply Qle_refl|].
  destruct (contributes d code item); simpl; [|exact IH].
  lra.
Qed.

Lemma denominator_pos items :
  Forall (fun item => (0 < snd item)%Q) items ->
  existsb (contributes d code) items = true ->
  (0 < denominator d code items)%Q.
Proof.
  induction 1 as [|item items Hw Hrest IH]; simpl; [discriminate|].
  intros Hex. pose proof (denominator_nonneg items Hrest) as Hnn.
  unfold denominator in *. simpl.
  destruct (contributes d code item) eqn:Hc; simpl in *.
  - lra.
  - now apply IH.
Qed.

Lemma adjusted_unit value name :
  (0 <= value -> 0 <= adjusted value name <= 1)%Q.
Proof.
  intros Hv. unfold adjusted.
  pose proof (normalize_spec_le_1 value name) as H1.
  pose proof (normalize_spec_nonneg value name Hv) as H0.
  rewrite <- normalize_value_spec in H0, H1.
  destruct (_is_lower_better name); lra.
Qed.

Lemma sums_bounds items :
  Forall (fun item => (0 < snd item)%Q) items ->
  values_nonneg d code items ->
  (0 <= numerator d code items <= denominator d code items)%Q.
Proof.
  induction 1 as [|[ind w] items Hw _ IH]; intros Hv.
  - unfold numerator, denominator. simpl. lra.
  - assert (Hrest : values_nonneg d code items).
    { intros item value name Hin. apply (Hv item value name). now right. }
    specialize (IH Hrest). simpl in Hw.
    destruct (observed d code ind) as [[value name]|] eqn:Hobs.
    + destruct (sums_cons_some ind w items _ _ Hobs) as [-> ->].
      unfold contribution. cbn [fst snd]. rewrite Hobs.
      destruct name as [name|]; [|lra].
      pose proof (adjusted_unit value name
                    (Hv (ind, w) value (Some name) (or_introl eq_refl) Hobs)) as Ha.
      nra.
    + destruct (sums_cons_none ind w items Hobs) as [-> ->]. exact IH.
Qed.

End ScoringEngine.

(** X10. For positive weights and non-negative observed values the score is in
    the unit interval. *)
Lemma calculate_score_unit d code weights :
  names_present d code weights ->
  Forall (fun item => (0 < snd item)%Q) weights ->
  values_nonneg d code weights ->
  exists s, calculate_score d code weights = Ok s /\ (0 <= s <= 1)%Q.
Proof.
  intros Hn Hw Hv. unfold calculate_score.
  destruct (score_loop_sums d code weights Hn 0%Q 0%Q) as (ts & tw & -> & Hts & Htw).
  cbn [bind]. eexists; split; [reflexivity|].
  pose proof (sums_bounds d code weights Hw Hv) as Hb.
  destruct (Qlt_le_dec 0 tw) as [Hpos|_]; [|lra].
  split.
  - apply Qle_shift_div_l; [exact Hpos|]. lra.
  - apply Qle_shift_div_r; [exact Hpos|]. lra.
Qed.

(** C2. [calculate_score] walks the weight map: an indicator whose latest
    observation is absent or has a NULL value leaves both accumulators as
    they are; any other adds its normalized, polarity-adjusted value times
    its weight to the numerator and its weight to the denominator; the
    result is numerator/denominator when the denominator is positive, which
    it is for positive weights as soon as one indicator contributes, and
    exactly 0 when none contributes; and the score under {A: 1, B: 1} with
    no data for B is the score under {A: 1}. *)
Theorem calculate_score_weighted_average (d : db) (code : string) (weights : dict Q) :
  (forall acc item,
      contributes d code item = false -> score_step d code acc item = Ok acc) /\
  (forall ts tw ind w value name,
      observed d code ind = Some (value, Some name) ->
      score_step d code (ts, tw) (ind, w)
      = Ok ((ts + adjusted value name * w)%Q, (tw + w)%Q)) /\
  (names_present d code weights ->
   exists s,
     calculate_score d code weights = Ok s /\
     (s == if Qlt_le_dec 0 (denominator d code weights)
           then numerator d code weights / denominator d code weights
           else 0)%Q) /\
  (names_present d code weights ->
   Forall (fun item => (0 < snd item)%Q) weights ->
   existsb (contributes d code) weights = true ->
   exists s,
     calculate_score d code weights = Ok s /\
     (s == numerator d code weights / denominator d code weights)%Q) /\
  (forallb (fun item => negb (contributes d code item)) weights = true ->
   calculate_score d code weights = Ok 0%Q) /\
  (forall A B,
      contributes d code (B, 1%Q) = false ->
      calculate_score d code [(A, 1%Q); (B, 1%Q)] = calculate_score d code [(A, 1%Q)]).
Proof.
  split; [apply score_step_skip|].
  split; [apply score_step_add|].
  assert (Hgen : names_present d code weights ->
    exists s, calculate_score d code weights = Ok s /\
      (s == if Qlt_le_dec 0 (denominator d code weights)
            then numerator d code weights / denominator d code weights
            else 0)%Q).
  { intros Hn. unfold calculate_score.
    destruct (score_loop_sums d code weights Hn 0%Q 0%Q) as (ts & tw & -> & Hts & Htw).
    cbn [bind]. eexists; split; [reflexivity|].
    rewrite Qplus_0_l in Hts, Htw.
    destruct (Qlt_le_dec 0 tw) as [H1|H1];
      destruct (Qlt_le_dec 0 (denominator d code weights)) as [H2|H2];
      try (exfalso; lra).
    - now rewrite Hts, Htw.
    - reflexivity. }
  split; [exact Hgen|].
  split.
  { intros Hn Hw Hex. destruct (Hgen Hn) as (s & Hs & Heq).
    exists s. split; [exact Hs|].
    pose proof (denominator_pos d code weights Hw Hex) as Hpos.
    destruct (Qlt_le_dec 0 (denominator d code weights)); [exact Heq|lra]. }
  split.
  { intros Hnone. unfold calculate_score.
    rewrite score_loop_skip by exact Hnone. reflexivity. }
  intros A B HB. unfold calculate_score. cbn [score_loop].
  destruct (score_step d code (0%Q, 0%Q) (A, 1%Q)) as [acc|e]; [|reflexivity].
  cbn [bind]. rewrite score_step_skip by exact HB. reflexivity.
Qed.

(** Paris has data for TT1 and none for TT9; Lyon has none at all. *)
Lemma calculate_score_weighted_average_witness :
  (exists s,
     calculate_score sample_db "FR001C" [("TT1", 1%Q); ("TT9", 1%Q)] = Ok s /\
     (s == numerator sample_db "FR001C" [("TT1", 1%Q); ("TT9", 1%Q)]
           / denominator sample_db "FR001C" [("TT1", 1%Q); ("TT9", 1%Q)])%Q) /\
  calculate_score sample_db "FR001C" [("TT1", 1%Q); ("TT9", 1%Q)]
  = calculate_score sample_db "FR001C" [("TT1", 1%Q)] /\
  calculate_score sample_db "FR003C" [("TT1", 1%Q); ("TT9", 1%Q)] = Ok 0%Q.
Proof.
  split; [|split].
  - apply (calculate_score_weighted_average sample_db "FR001C"
             [("TT1", 1%Q); ("TT9", 1%Q)]).
    + intros item value [<-|[<-|[]]]; vm_compute; discriminate.
    + repeat constructor.
    + reflexivity.
  - apply (calculate_score_weighted_average sample_db "FR001C" []). reflexivity.
  - apply (calculate_score_weighted_average sample_db "FR003C"
             [("TT1", 1%Q); ("TT9", 1%Q)]). reflexivity.
Defined.

(** The scenario of the specification: value 42 under a name without any
    marker scores [min(42/100000, 1)]. *)
Example calculate_score_scenario :
  calculate_score sample_db "FR001C" [("TT1", 1%Q)]
  = Ok ((0 + py_min (42 / 100000) 1 * 1) / (0 + 1))%Q.
Proof. reflexivity. Qed.

(** C3. The score is not confined to the unit interval: a negative
    observation scores below 0, and a negative observation of an indicator
    for which lower is better scores above 1. *)
Theorem calculate_score_outside_unit_interval :
  (exists s, calculate_score negative_db "FR001C" [("TT1", 1%Q)] = Ok s /\ (s < 0)%Q) /\
  (exists s, calculate_score negative_db "FR001C" [("TT2", 1%Q)] = Ok s /\ (1 < s)%Q).
Proof.
  split; eexists; (split; [reflexivity|]); vm_compute; reflexivity.
Qed.

(** ** IndicatorStore *)

Section IndicatorStore.

Lemma filter_filter_length {A : Type} (p q : A -> bool) (l : list A) :
  (length (filter p (filter q l)) <= length (filter p l))%nat.
Proof.
  induction l as [|x l IH]; simpl; [lia|].
  destruct (q x), (p x) eqn:Hp; simpl; rewrite ?Hp; simpl; lia.
Qed.

Lemma opt_eqb_string_eq (a b : option string) :
  opt_eqb String.eqb a b = true -> a = b.
Proof.
  destruct a, b; simpl; try discriminate.
  intros H. apply String.eqb_eq in H. now subst.
Qed.

Lemma opt_eqb_Z_eq (a b : option Z) : opt_eqb Z.eqb a b = true -> a = b.
Proof.
  destruct a, b; simpl; try discriminate.
  intros H. apply Z.eqb_eq in H. now subst.
Qed.

Lemma has_triple_spec code indicator year r :
  has_triple code indicator year r = true <->
  ind_city_code r = code /\ ind_indicator_code r = Some indicator
  /\ ind_year r = Some year.
Proof.
  unfold has_triple. rewrite !andb_true_iff. split.
  - intros [[H1 H2] H3]. apply String.eqb_eq in H1.
    apply opt_eqb_string_eq in H2. apply opt_eqb_Z_eq in H3. auto.
  - intros (-> & -> & ->). simpl.
    now rewrite !String.eqb_refl, Z.eqb_refl.
Qed.

Lemma has_triple_conflict code indicator year r row :
  has_triple code indicator year r = true ->
  has_triple code indicator year row = true ->
  unique_conflict r row = true.
Proof.
  rewrite !has_triple_spec. intros (H1 & H2 & H3) (H4 & H5 & H6).
  unfold unique_conflict. rewrite H1, H2, H3, H4, H5, H6. simpl.
  now rewrite !String.eqb_refl, Z.eqb_refl.
Qed.

(** After an insert-or-replace the triple of the new row has that row
    alone. *)
Lemma insert_or_replace_last_wins table row code indicator year :
  has_triple code indicator year row = true ->
  filter (has_triple code indicator year) (insert_or_replace_indicator table row)
  = [row].
Proof.
  intros Hrow. unfold insert_or_replace_indicator.
  rewrite filter_app. simpl. rewrite Hrow.
  replace (filter _ (filter _ table)) with (@nil indicator_row); [reflexivity|].
  symmetry. induction table as [|r table IH]; simpl; [reflexivity|].
  destruct (unique_conflict r row) eqn:Hc; simpl; [exact IH|].
  destruct (has_triple code indicator year r) eqn:Hr; [|exact IH].
  rewrite (has_triple_conflict _ _ _ _ _ Hr Hrow) in Hc. discriminate.
Qed.

Lemma insert_or_replace_unique table row :
  obs_unique table -> obs_unique (insert_or_replace_indicator table row).
Proof.
  intros Hu code indicator year.
  destruct (has_triple code indicator year row) eqn:Hrow.
  - rewrite insert_or_replace_last_wins by exact Hrow. simpl. lia.
  - unfold insert_or_replace_indicator. rewrite filter_app, length_app.
    simpl. rewrite Hrow. simpl.
    pose proof (filter_filter_length (has_triple code indicator year)
                  (fun r => negb (unique_conflict r row)) table).
    specialize (Hu code indicator year). lia.
Qed.

Lemma insert_or_ignore_city_rows table code name ctry r :
  In r (fst (insert_or_ignore_city table code name ctry)) ->
  In r table \/
  r = {| city_code := code; city_name := name; country := Some ctry;
         lat := None; lng := None; population := None |}.
Proof.
  unfold insert_or_ignore_city. destruct (existsb _ table); simpl.
  - auto.
  - rewrite in_app_iff. simpl. intuition.
Qed.

Lemma insert_or_replace_rows table row r :
  In r (insert_or_replace_indicator table row) -> In r table \/ r = row.
Proof.
  unfold insert_or_replace_indicator. rewrite in_app_iff, filter_In. simpl.
  intuition.
Qed.

Variable B : builtins.

(** What one step of the loop does to the database: nothing, or the
    upsert of one entity, whose code ends in ["C"], followed or not by
    the upsert of one of its observations. *)
Lemma store_record_shape d c rec :
  fst (store_record B (d, c) rec) = d \/
  exists code name,
    code <> "" /\ endswith code "C" = true /\
    let table :=
      fst (insert_or_ignore_city (cities d) code name (upper (str_take 2 code))) in
    fst (store_record B (d, c) rec)
    = {| cities := table; indicators := indicators d |} \/
    exists row,
      ind_city_code row = code /\
      fst (store_record B (d, c) rec)
      = {| cities := table;
           indicators := insert_or_replace_indicator (indicators d) row |}.
Proof.
  unfold store_record.
  destruct (first_key _ rec) as [city_key|]; [|now left].
  destruct (record_get rec city_key) as [|code|q]; [now left| |].
  2: { destruct (Qeq_bool q 0); now left. }
  destruct (String.eqb_spec code "") as [->|Hne]; [now left|]. simpl.
  destruct (endswith code "C") eqn:Hend; [|now left]. simpl.
  right. exists code, (sql_text B (record_get rec (String.append city_key "_label"))).
  split; [exact Hne|]. split; [exact Hend|].
  destruct (insert_or_ignore_city _ _ _ _) as [table added]. cbn [fst].
  unfold store_indicator.
  destruct (first_key _ rec) as [indic_key|]; [|now left].
  destruct (record_year B rec) as [year|]; [|now left].
  destruct (record_value B rec) as [value|]; [|now left].
  destruct (sqlite_int_ok year); [|now left]. cbn [negb].
  right. eexists. split; [|reflexivity]. reflexivity.
Qed.

(** An invariant of every step is an invariant of the loop. *)
Lemma store_loop_invariant (P : db -> Prop) :
  (forall d c rec, P d -> P (fst (store_record B (d, c) rec))) ->
  forall records d c,
    P d -> P (fst (fold_left (store_record B) records (d, c))).
Proof.
  intros Hstep. induction records as [|rec records IH]; intros d c Hd;
    cbn [fold_left].
  - exact Hd.
  - destruct (store_record B (d, c) rec) as [d' c'] eqn:E.
    apply IH. change d' with (fst (d', c')). rewrite <- E. now apply Hstep.
Qed.

Lemma store_data_invariant (P : db -> Prop) :
  (forall d c rec, P d -> P (fst (store_record B (d, c) rec))) ->
  forall d dataset d' c',
    P d -> store_data B d dataset = Ok (d', c') -> P d'.
Proof.
  intros Hstep d dataset d' c' Hd. unfold store_data.
  destruct (parse_jsonstat dataset) as [records|]; simpl; [|discriminate].
  intros [= H]. change d' with (fst (d', c')). rewrite <- H.
  now apply store_loop_invariant.
Qed.

(** Uniqueness of the dated triples is an invariant of ingestion. *)
Lemma store_record_unique d c rec :
  obs_unique (indicators d) ->
  obs_unique (indicators (fst (store_record B (d, c) rec))).
Proof.
  intros Hu.
  destruct (store_record_shape d c rec) as [->|(code & name & _ & _ & [->|(row & _ & ->)])];
    simpl; auto using insert_or_replace_unique.
Qed.

Lemma store_data_unique d dataset d' c' :
  obs_unique (indicators d) ->
  store_data B d dataset = Ok (d', c') ->
  obs_unique (indicators d').
Proof.
  apply (store_data_invariant (fun d => obs_unique (indicators d))).
  intros; now apply store_record_unique.
Qed.

End IndicatorStore.

(** ** Ingestion *)

Section Ingestion.
Variable B : builtins.

Lemma store_record_no_entity d c rec :
  first_key (fun k => endswith k "ies") rec = None ->
  store_record B (d, c) rec = (d, count_skipped c).
Proof. intros H. unfold store_record. now rewrite H. Qed.

Lemma store_record_bad_code d c rec city_key :
  first_key (fun k => endswith k "ies") rec = Some city_key ->
  (record_get rec city_key = PNone \/
   exists code, record_get rec city_key = PStr code /\
                (code = "" \/ endswith code "C" = false)) ->
  store_record B (d, c) rec = (d, count_skipped c).
Proof.
  intros Hk Hcode. unfold store_record. rewrite Hk.
  destruct Hcode as [->|(code & -> & [->|Hend])]; [reflexivity|reflexivity|].
  rewrite Hend. simpl. now rewrite orb_true_r.
Qed.

Lemma store_record_no_indicator d c rec :
  first_key (fun k => startswith k "indic") rec = None ->
  indicators (fst (store_record B (d, c) rec)) = indicators d.
Proof.
  intros Hk. unfold store_record.
  destruct (first_key (fun k => endswith k "ies") rec) as [city_key|];
    [|reflexivity].
  destruct (record_get rec city_key) as [|code|q]; [reflexivity| |].
  2: { now destruct (Qeq_bool q 0). }
  destruct (String.eqb code "" || negb (endswith code "C")); [reflexivity|].
  destruct (insert_or_ignore_city _ _ _ _) as [table added].
  unfold store_indicator. now rewrite Hk.
Qed.

(** The entities a batch adds follow the country rule. *)
Lemma store_data_countries d dataset d' c' :
  store_data B d dataset = Ok (d', c') ->
  forall r, In r (cities d') ->
    In r (cities d) \/
    (endswith (city_code r) "C" = true /\
     country r = Some (upper (str_take 2 (city_code r)))).
Proof.
  apply (store_data_invariant B
           (fun d1 => forall r, In r (cities d1) ->
              In r (cities d) \/
              (endswith (city_code r) "C" = true /\
               country r = Some (upper (str_take 2 (city_code r)))))).
  - intros d1 c1 rec Hd1 r.
    destruct (store_record_shape B d1 c1 rec)
      as [->|(code & name & _ & Hend & [->|(row & _ & ->)])];
      cbn [cities]; auto;
      intros Hin; apply insert_or_ignore_city_rows in Hin as [Hin| ->];
      auto; right; simpl; auto.
  - auto.
Qed.

(** A code without the suffix marker that the store does not hold is
    not brought in by a batch. *)
Lemma store_data_keeps_out d dataset d' c' code :
  endswith code "C" = false ->
  store_data B d dataset = Ok (d', c') ->
  (forall r, In r (cities d) -> city_code r <> code) ->
  (forall r, In r (indicators d) -> ind_city_code r <> code) ->
  (forall r, In r (cities d') -> city_code r <> code) /\
  (forall r, In r (indicators d') -> ind_city_code r <> code).
Proof.
  intros Hcode Hstore Hc Hi.
  apply (store_data_invariant B
           (fun d1 => (forall r, In r (cities d1) -> city_code r <> code) /\
                      (forall r, In r (indicators d1) -> ind_city_code r <> code)))
    with (d := d) (dataset := dataset) (c' := c'); [|auto|exact Hstore].
  intros d1 c1 rec [H1 H2].
  assert (Hnew : forall code', endswith code' "C" = true -> code' <> code).
  { intros code' He ->. congruence. }
  destruct (store_record_shape B d1 c1 rec)
    as [->|(code' & name & _ & Hend & [->|(row & Hrow & ->)])];
    cbn [cities indicators]; [auto| |]; split; intros r Hin;
    try (apply insert_or_ignore_city_rows in Hin as [Hin| ->]; simpl; auto);
    try (apply insert_or_replace_rows in Hin as [Hin| ->]; [auto|]);
    auto.
  rewrite Hrow. auto.
Qed.

End Ingestion.

(** An entity code that ends in the marker but has no two-letter country
    prefix is stored; and a record without an indicator dimension is not
    counted as skipped, and its entity is stored. *)
Lemma store_data_stores_odd_code_and_leaves_uncounted :
  matches_convention "1C" = false /\
  store_data example_builtins empty_db
    (one_cell [("cities", "1C"); ("indic_ur", "TT1")] 42%Q)
  = Ok ({| cities := [city_of "1C" "1C"];
           indicators := [undated_observation "1C" "TT1" 42%Q] |},
        {| cities_added := 1; indicators_added := 1; skipped := 0; errors := 0 |}) /\
  store_data example_builtins empty_db (one_cell [("cities", "FR001C")] 42%Q)
  = Ok ({| cities := [city_of "FR001C" "FR"]; indicators := [] |},
        {| cities_added := 1; indicators_added := 0; skipped := 0; errors := 0 |}).
Proof. repeat split. Qed.

(** C9 (amended). In the ingestion loop a record with no key ending in
    ["ies"], and a record whose entity code is absent, empty or does not end
    with the marker ["C"], leaves the database as it is and adds one to the
    skipped counter; a record with no key starting with ["indic"] stores no
    observation.  Over a batch, every entity row that was not in the store
    before has a code ending in ["C"] and, for country, the upper-cased
    first two characters of its code; and a code that does not end in ["C"],
    such as ["XX001"], is in neither table afterwards unless it was
    before. *)
Theorem store_data_skips (B : builtins) (d : db) (c : counters) (rec : record) :
  (first_key (fun k => endswith k "ies") rec = None ->
   store_record B (d, c) rec = (d, count_skipped c)) /\
  (forall city_key,
     first_key (fun k => endswith k "ies") rec = Some city_key ->
     (record_get rec city_key = PNone \/
      exists code, record_get rec city_key = PStr code /\
                   (code = "" \/ endswith code "C" = false)) ->
     store_record B (d, c) rec = (d, count_skipped c)) /\
  (first_key (fun k => startswith k "indic") rec = None ->
   indicators (fst (store_record B (d, c) rec)) = indicators d) /\
  (forall dataset d' c',
     store_data B d dataset = Ok (d', c') ->
     (forall r, In r (cities d') ->
        In r (cities d) \/
        (endswith (city_code r) "C" = true /\
         country r = Some (upper (str_take 2 (city_code r))))) /\
     (forall code,
        endswith code "C" = false ->
        (forall r, In r (cities d) -> city_code r <> code) ->
        (forall r, In r (indicators d) -> ind_city_code r <> code) ->
        (forall r, In r (cities d') -> city_code r <> code) /\
        (forall r, In r (indicators d') -> ind_city_code r <> code))).
Proof.
  split; [apply store_record_no_entity|].
  split; [apply store_record_bad_code|].
  split; [apply store_record_no_indicator|].
  intros dataset d' c' Hstore. split.
  - eapply store_data_countries, Hstore.
  - intros code Hcode. eapply store_data_keeps_out; eauto.
Qed.

(** A record without entity dimension, one of code XX001, one without
    indicator dimension, and a batch that holds XX001. *)
Lemma store_data_skips_witness :
  store_record example_builtins (empty_db, zero_counters)
    [("geo", PStr "FR001C"); ("value", PNum 42%Q)]
  = (empty_db, count_skipped zero_counters) /\
  store_record example_builtins (empty_db, zero_counters)
    [("cities", PStr "XX001"); ("indic_ur", PStr "TT1"); ("value", PNum 42%Q)]
  = (empty_db, count_skipped zero_counters) /\
  indicators (fst (store_record example_builtins (sample_db, zero_counters)
                     [("cities", PStr "FR002C"); ("value", PNum 42%Q)]))
  = indicators sample_db /\
  exists d' c',
    store_data example_builtins sample_db
      (one_cell [("cities", "XX001"); ("indic_ur", "TT1")] 42%Q) = Ok (d', c') /\
    (forall r, In r (cities d') -> city_code r <> "XX001") /\
    (forall r, In r (indicators d') -> ind_city_code r <> "XX001").
Proof.
  split; [|split; [|split]].
  - apply (store_data_skips example_builtins empty_db zero_counters
             [("geo", PStr "FR001C"); ("value", PNum 42%Q)]).
    reflexivity.
  - apply (store_data_skips example_builtins empty_db zero_counters
             [("cities", PStr "XX001"); ("indic_ur", PStr "TT1"); ("value", PNum 42%Q)])
      with (city_key := "cities").
    + reflexivity.
    + right. exists "XX001". split; [reflexivity|]. right. reflexivity.
  - apply (store_data_skips example_builtins sample_db zero_counters
             [("cities", PStr "FR002C"); ("value", PNum 42%Q)]).
    reflexivity.
  - do 2 eexists. split; [reflexivity|].
    apply (store_data_skips example_builtins sample_db zero_counters [])
      with (dataset := one_cell [("cities", "XX001"); ("indic_ur", "TT1")] 42%Q)
           (c' := count_skipped zero_counters).
    + reflexivity.
    + reflexivity.
    + intros r [<-|[<-|[]]]; discriminate.
    + intros r [<-|[]]; discriminate.
Defined.

(** C4. A cube without a time dimension stores its observations with a
    NULL year, which the uniqueness constraint does not compare: ingesting
    the same entity and indicator twice leaves two rows, of values 42 and
    43.  With the time dimension the second ingestion replaces the row. *)
Theorem store_data_undated_not_replaced :
  (exists d1 c1 d2 c2,
     store_data example_builtins empty_db (one_cell undated_dims 42%Q) = Ok (d1, c1) /\
     store_data example_builtins d1 (one_cell undated_dims 43%Q) = Ok (d2, c2) /\
     indicators d2 = [undated_observation "FR001C" "TT1" 42%Q;
                      undated_observation "FR001C" "TT1" 43%Q]) /\
  (exists d1 c1 d2 c2,
     store_data example_builtins empty_db (one_cell dated_dims 42%Q) = Ok (d1, c1) /\
     store_data example_builtins d1 (one_cell dated_dims 43%Q) = Ok (d2, c2) /\
     map ind_value (indicators d2) = [Some 43%Q]).
Proof.
  split; do 4 eexists; (split; [reflexivity|]); split; reflexivity.
Qed.

(** X8. What holds of the triples that have a year: at most one row each, in
    every store a batch leaves, and the row written last. *)
Lemma store_data_dated_triples (B : builtins) (d : db) :
  obs_unique (indicators d) ->
  (forall dataset d' c',
     store_data B d dataset = Ok (d', c') -> obs_unique (indicators d')) /\
  (forall r1 r2 code indicator year,
     has_triple code indicator year r1 = true ->
     has_triple code indicator year r2 = true ->
     filter (has_triple code indicator year)
       (insert_or_replace_indicator (insert_or_replace_indicator (indicators d) r1) r2)
     = [r2]).
Proof.
  intros Hu. split.
  - intros dataset d' c'. now apply store_data_unique.
  - intros r1 r2 code indicator year _ H2. now apply insert_or_replace_last_wins.
Qed.

(** ** Letter case *)

Section LetterCase.

Lemma all_ascii_In a : In a all_ascii.
Proof.
  unfold all_ascii. rewrite <- (ascii_nat_embedding a). apply in_map, in_seq.
  pose proof (nat_ascii_bounded a). lia.
Qed.

(** SQL [UPPER] sends two bytes to one exactly when they are the same
    letter: it changes the letters a-z and no other byte. *)
Lemma same_letter_upper a b :
  same_letter a b = Ascii.eqb (ascii_upper a) (ascii_upper b).
Proof.
  assert (H : forallb (fun a => forallb (fun b =>
                Bool.eqb (same_letter a b)
                  (Ascii.eqb (ascii_upper a) (ascii_upper b))) all_ascii)
                all_ascii = true) by (vm_compute; reflexivity).
  rewrite forallb_forall in H. specialize (H a (all_ascii_In a)).
  rewrite forallb_forall in H. apply Bool.eqb_prop. apply H, all_ascii_In.
Qed.

(** [UPPER(s) = UPPER(t)] holds exactly of the strings that are equal
    except in the case of the letters a-z. *)
Lemma equal_up_to_ascii_case_upper s t :
  equal_up_to_ascii_case s t = true <-> upper s = upper t.
Proof.
  revert t. induction s as [|a s IH]; intros [|b t]; simpl; split;
    try discriminate; try reflexivity.
  - rewrite andb_true_iff, same_letter_upper, IH. intros [Ha Hs].
    apply Ascii.eqb_eq in Ha. congruence.
  - intros [= Ha Hs]. rewrite andb_true_iff, same_letter_upper, IH.
    split; [rewrite Ha; apply Ascii.eqb_refl|exact Hs].
Qed.

(** A byte that is no letter of a-z or A-Z is the same letter as itself
    alone; so are the bytes of every character outside ASCII. *)
Lemma same_letter_other a b :
  same_letter a b = true ->
  (N_of_ascii a < 65 \/ 90 < N_of_ascii a < 97 \/ 122 < N_of_ascii a)%N ->
  a = b.
Proof.
  unfold same_letter. intros H Ha.
  destruct (Ascii.eqb_spec a b) as [|Hne]; [assumption|]. exfalso.
  cbn [orb] in H. apply orb_prop in H as [H|H];
    repeat (apply andb_prop in H as [H ?]);
    repeat match goal with
           | E : (_ <=? _)%N = true |- _ => apply N.leb_le in E
           | E : (_ =? _)%N = true |- _ => apply N.eqb_eq in E
           end; lia.
Qed.

(** What [WHERE UPPER(country) = UPPER(?)] selects. *)
Lemma country_is_nocase_spec c r :
  country_is_nocase c r = true <->
  exists s, country r = Some s /\ equal_up_to_ascii_case s c = true.
Proof.
  unfold country_is_nocase. destruct (country r) as [s|].
  - rewrite String.eqb_eq, <- equal_up_to_ascii_case_upper. split.
    + intros H. now exists s.
    + now intros (s' & [= <-] & H).
  - split; [discriminate|]. now intros (s' & [=] & _).
Qed.

Lemma equal_up_to_ascii_case_sym s t :
  equal_up_to_ascii_case s t = equal_up_to_ascii_case t s.
Proof.
  apply Bool.eq_true_iff_eq. rewrite !equal_up_to_ascii_case_upper.
  split; intros H; now symmetry.
Qed.

End LetterCase.

(** ** What ingestion depends on, and the names it writes *)

Section DecodedIngestion.

Lemma decoded_get_text rec k :
  decoded rec -> k <> "value" ->
  record_get rec k = PNone \/ exists s, record_get rec k = PStr s.
Proof.
  intros (Ht & _ & _) Hk. unfold record_get.
  destruct (dict_get rec k) as [v|] eqn:Hget; [|now left].
  destruct (Ht k v Hget Hk) as [s ->]. eauto.
Qed.

Lemma decoded_get_value rec :
  decoded rec ->
  record_get rec "value" = PNone \/ exists q, record_get rec "value" = PNum q.
Proof.
  intros (_ & Hv & _). unfold record_get.
  destruct (dict_get rec "value") as [v|]; [|now left].
  destruct (Hv v eq_refl) as [->|[q ->]]; eauto.
Qed.

Lemma first_key_holds (p : string -> bool) rec k :
  first_key p rec = Some k -> p k = true.
Proof. unfold first_key. intros H. now apply find_some in H. Qed.

(** On a decoded record a TEXT column receives text or NULL. *)
Lemma sql_text_decoded B B' rec k :
  decoded rec -> k <> "value" ->
  sql_text B (record_get rec k) = sql_text B' (record_get rec k).
Proof.
  intros Hd Hk. destruct (decoded_get_text rec k Hd Hk) as [->|[s ->]]; reflexivity.
Qed.

(** On decoded records the loop body uses [int] on text and neither of
    the two other conversions. *)
Lemma store_record_builtins B B' st rec :
  (forall s, py_int B s = py_int B' s) ->
  decoded rec ->
  store_record B st rec = store_record B' st rec.
Proof.
  intros Hint Hd. destruct st as [d c]. unfold store_record.
  destruct (first_key (fun k => endswith k "ies") rec) as [city_key|] eqn:Hck;
    [|reflexivity].
  destruct (record_get rec city_key) as [|code|q]; [reflexivity| |reflexivity].
  destruct (String.eqb code "" || negb (endswith code "C")); [reflexivity|].
  rewrite (sql_text_decoded B B' rec _ Hd (label_key_not_value city_key)).
  destruct (insert_or_ignore_city _ _ _ _) as [table added].
  unfold store_indicator.
  destruct (first_key (fun k => startswith k "indic") rec) as [indic_key|] eqn:Hik;
    [|reflexivity].
  assert (Hyear : record_year B rec = record_year B' rec).
  { unfold record_year.
    destruct (first_key (String.eqb "time") rec) as [year_key|] eqn:Hyk;
      [|reflexivity].
    apply first_key_holds in Hyk. apply String.eqb_eq in Hyk. subst year_key.
    destruct (decoded_get_text rec "time" Hd) as [->|[s ->]];
      [discriminate|reflexivity|]. now rewrite Hint. }
  assert (Hvalue : record_value B rec = record_value B' rec).
  { unfold record_value.
    destruct (decoded_get_value rec Hd) as [->|[q ->]]; reflexivity. }
  rewrite Hyear, Hvalue.
  destruct (record_year B' rec) as [year|]; [|reflexivity].
  destruct (record_value B' rec) as [value|]; [|reflexivity].
  destruct (negb (sqlite_int_ok year)); [reflexivity|].
  assert (Hik' : indic_key <> "value").
  { intros ->. apply first_key_holds in Hik. discriminate. }
  rewrite (sql_text_decoded B B' rec _ Hd Hik').
  rewrite (sql_text_decoded B B' rec _ Hd (label_key_not_value indic_key)).
  assert (Hst : sql_text B (record_status rec) = sql_text B' (record_status rec)).
  { unfold record_status. destruct Hd as (Ht & _ & _).
    destruct (dict_get rec "status") as [v|] eqn:Hs; [|reflexivity].
    destruct (Ht "status" v Hs ltac:(discriminate)) as [s ->]. reflexivity. }
  now rewrite Hst.
Qed.

Lemma store_loop_builtins B B' records :
  (forall s, py_int B s = py_int B' s) ->
  Forall decoded records ->
  forall st, fold_left (store_record B) records st
             = fold_left (store_record B') records st.
Proof.
  intros Hint. induction 1 as [|rec records Hd _ IH]; intros st; cbn [fold_left].
  - reflexivity.
  - rewrite (store_record_builtins B B' st rec Hint Hd). apply IH.
Qed.

(** [store_data] depends on the built-ins through [int] on text alone. *)
Lemma store_data_builtins B B' d dataset :
  (forall s, py_int B s = py_int B' s) ->
  store_data B d dataset = store_data B' d dataset.
Proof.
  intros Hint. unfold store_data.
  destruct (parse_jsonstat dataset) as [records|] eqn:Hp; [|reflexivity].
  simpl. f_equal. apply store_loop_builtins; [exact Hint|].
  eapply parse_jsonstat_decoded, Hp.
Qed.

Lemma insert_or_replace_named table row :
  all_named table -> ind_indicator_name row <> None ->
  all_named (insert_or_replace_indicator table row).
Proof.
  unfold all_named, insert_or_replace_indicator. intros Ht Hrow.
  apply Forall_app. split.
  - apply Forall_forall. intros r Hr. apply filter_In in Hr as [Hr _].
    revert r Hr. now apply Forall_forall.
  - now constructor.
Qed.

(** The loop body writes no NULL [indicator_name]. *)
Lemma store_record_named B d c rec :
  decoded rec ->
  all_named (indicators d) ->
  all_named (indicators (fst (store_record B (d, c) rec))).
Proof.
  intros Hd Hn. unfold store_record.
  destruct (first_key (fun k => endswith k "ies") rec) as [city_key|];
    [|exact Hn].
  destruct (record_get rec city_key) as [|code|q]; [exact Hn| |].
  2: { now destruct (Qeq_bool q 0). }
  destruct (String.eqb code "" || negb (endswith code "C")); [exact Hn|].
  destruct (insert_or_ignore_city _ _ _ _) as [table added].
  unfold store_indicator.
  destruct (first_key (fun k => startswith k "indic") rec) as [indic_key|] eqn:Hik;
    [|exact Hn].
  destruct (record_year B rec) as [year|]; [|exact Hn].
  destruct (record_value B rec) as [value|]; [|exact Hn].
  destruct (negb (sqlite_int_ok year)); [exact Hn|].
  cbn [fst indicators]. apply insert_or_replace_named; [exact Hn|].
  cbn [ind_indicator_name]. destruct Hd as (_ & _ & Hl).
  destruct (Hl indic_key Hik) as [s Hs]. unfold record_get. now rewrite Hs.
Qed.

Lemma store_data_named B d dataset d' c' :
  all_named (indicators d) ->
  store_data B d dataset = Ok (d', c') ->
  all_named (indicators d').
Proof.
  intros Hn. unfold store_data.
  destruct (parse_jsonstat dataset) as [records|] eqn:Hp; simpl; [|discriminate].
  intros [= H]. change d' with (fst (d', c')). rewrite <- H. clear H.
  apply parse_jsonstat_decoded in Hp.
  generalize zero_counters as c. revert d Hn.
  induction Hp as [|rec records Hd _ IH]; intros d Hn c; cbn [fold_left].
  - exact Hn.
  - destruct (store_record B (d, c) rec) as [d1 c1] eqn:E.
    apply IH. change d1 with (fst (d1, c1)). rewrite <- E.
    now apply store_record_named.
Qed.

Lemma latest_of_In rows :
  forall best r, latest_of rows best = Some r -> In r rows \/ best = Some r.
Proof.
  induction rows as [|x rows IH]; intros best r; simpl; [auto|].
  intros H. apply IH in H as [H|H]; [auto|].
  destruct best as [b|]; [destruct (year_leb _ _)|]; injection H as <-; auto.
Qed.

(** In a store without NULL names every score is defined. *)
Lemma all_named_names_present d code weights :
  all_named (indicators d) -> names_present d code weights.
Proof.
  intros Hn item value _ Hobs. unfold observed, latest_row in Hobs.
  destruct (latest_of _ None) as [r|] eqn:Hl; [|discriminate].
  apply latest_of_In in Hl as [Hl|Hl]; [|discriminate].
  apply filter_In in Hl as [Hl _].
  destruct (ind_value r); [|discriminate]. injection Hobs as _ Hname.
  unfold all_named in Hn. rewrite Forall_forall in Hn. now apply (Hn r Hl).
Qed.

End DecodedIngestion.

(** ** RankingEngine *)

Section RankingEngine.

Lemma upper_empty s : upper s = "" -> s = "".
Proof. destruct s; [reflexivity|discriminate]. Qed.

Lemma insert_sorted_In {A : Type} (before : A -> A -> bool) x y l :
  In y (insert_sorted before x l) <-> y = x \/ In y l.
Proof.
  induction l as [|z l IH]; simpl.
  - intuition.
  - destruct (before z x); simpl; rewrite ?IH; intuition.
Qed.

Lemma stable_sort_In {A : Type} (before : A -> A -> bool) y l :
  In y (stable_sort before l) <-> In y l.
Proof.
  unfold stable_sort. induction l as [|x l IH]; simpl; [reflexivity|].
  rewrite insert_sorted_In, IH. intuition.
Qed.

Lemma firstn_In {A : Type} n (l : list A) x : In x (firstn n l) -> In x l.
Proof.
  revert l. induction n as [|n IH]; intros l H; destruct l as [|y l];
    simpl in *; try contradiction.
  destruct H as [->|H]; auto.
Qed.

Lemma py_take_In {A : Type} n (l : list A) x : In x (py_take n l) -> In x l.
Proof. unfold py_take. destruct (n <? 0); apply firstn_In. Qed.

(** Every row [rank_cities] yields is the row of a selected city. *)
Lemma rank_loop_codes d weights rows :
  forall rankings x,
    rank_loop d weights rows = Ok rankings ->
    In x rankings ->
    exists r, In r rows /\ ranking_code x = Some (city_code r).
Proof.
  induction rows as [|r rows IH]; intros rankings x; simpl.
  - now intros [= <-].
  - destruct (calculate_score d (city_code r) weights) as [score|]; simpl;
      [|discriminate].
    destruct (rank_loop d weights rows) as [rest|]; simpl; [|discriminate].
    intros [= <-] Hin.
    assert (Hrest : In x rest -> exists r0, (r = r0 \/ In r0 rows) /\
                                  ranking_code x = Some (city_code r0)).
    { intros H. destruct (IH rest x eq_refl H) as (r0 & H0 & Hc). eauto. }
    destruct (Qlt_le_dec 0 score); [|auto].
    destruct Hin as [<-|Hin]; [|auto]. exists r. simpl. auto.
Qed.

Lemma NoDup_map_inj {A B : Type} (f : A -> B) l a b :
  NoDup (map f l) -> In a l -> In b l -> f a = f b -> a = b.
Proof.
  induction l as [|x l IH]; simpl; [contradiction|].
  intros Hnd Ha Hb Hf. inversion Hnd as [|? ? Hx Hl]; subst.
  destruct Ha as [->|Ha], Hb as [->|Hb]; auto.
  - exfalso. apply Hx. rewrite Hf. now apply in_map.
  - exfalso. apply Hx. rewrite <- Hf. now apply in_map.
Qed.

(** The earlier definition: two calls at most, and the fallback exactly
    when the weights are empty or no observation of a requested
    indicator exists in the country. *)
Lemma rank_cities_advanced_shadowed_spec d weights country limit :
  rank_cities_advanced_shadowed 1 d [] country limit
  = Some (Ok (by_population (filter (country_is_nocase country) (cities d)) limit)) /\
  rank_cities_advanced_shadowed 2 d weights country limit
  = Some (if match weights with [] => true | _ => negb (has_data d weights country) end
          then Ok (by_population (filter (country_is_nocase country) (cities d)) limit)
          else rank_cities d weights limit (Some country)).
Proof.
  split; [reflexivity|].
  destruct weights as [|w weights]; [reflexivity|].
  cbn [rank_cities_advanced_shadowed].
  destruct (has_data d (w :: weights) country); reflexivity.
Qed.

Lemma filter_none {A : Type} (p : A -> bool) l :
  (forall x, In x l -> p x = false) -> filter p l = [].
Proof.
  induction l as [|x l IH]; intros H; simpl; [reflexivity|].
  rewrite (H x (or_introl eq_refl)). apply IH. intros y Hy. apply H. now right.
Qed.

Lemma existsb_false {A : Type} (p : A -> bool) l x :
  existsb p l = false -> In x l -> p x = false.
Proof.
  intros H Hin. destruct (p x) eqn:Hp; [|reflexivity].
  rewrite <- H. symmetry. apply existsb_exists. eauto.
Qed.

(** Without an observation of a requested indicator in the country, no
    city of the country has a contributing indicator. *)
Lemma has_data_false_contributes d weights ctry r item :
  has_data d weights ctry = false ->
  In r (cities d) -> country r = Some ctry -> In item weights ->
  contributes d (city_code r) item = false.
Proof.
  intros Hno Hr Hc Hitem. unfold contributes, observed, latest_row.
  rewrite filter_none; [reflexivity|].
  intros i Hi. destruct (obs_matches (city_code r) (fst item) i) eqn:Hm;
    [|reflexivity].
  exfalso. unfold has_data in Hno.
  pose proof (existsb_false _ _ i Hno Hi) as Hfalse. cbv beta in Hfalse.
  unfold obs_matches in Hm. apply andb_prop in Hm as [Hcode Hind].
  assert (H1 : existsb (fun c => String.eqb (ind_city_code i) (city_code c)
                                 && country_is_nocase ctry c) (cities d) = true).
  { apply existsb_exists. exists r. split; [exact Hr|].
    rewrite Hcode. unfold country_is_nocase. rewrite Hc. apply String.eqb_refl. }
  assert (H2 : existsb (fun k => opt_eqb String.eqb (ind_indicator_code i) (Some k))
                 (dict_keys weights) = true).
  { apply existsb_exists. exists (fst item). split; [|exact Hind].
    unfold dict_keys. now apply in_map. }
  rewrite H1, H2 in Hfalse. discriminate.
Qed.

Lemma rank_loop_without_data d weights ctry rows :
  has_data d weights ctry = false ->
  (forall r, In r rows -> In r (cities d) /\ country r = Some ctry) ->
  rank_loop d weights rows = Ok [].
Proof.
  intros Hno. induction rows as [|r rows IH]; intros Hrows; simpl; [reflexivity|].
  destruct (Hrows r (or_introl eq_refl)) as [Hr Hc].
  assert (Hscore : calculate_score d (city_code r) weights = Ok 0%Q).
  { unfold calculate_score. rewrite score_loop_skip; [reflexivity|].
    apply forallb_forall. intros item Hitem.
    now rewrite (has_data_false_contributes d weights ctry r item). }
  rewrite Hscore, IH by (intros r' Hr'; apply Hrows; now right). reflexivity.
Qed.

(** X14. The definition in force, for a non-empty weight map: no data check,
    and an empty ranking when the country has no observation of a
    requested indicator. *)
Lemma rank_cities_advanced_without_data d weights ctry limit :
  weights <> [] -> ctry <> "" ->
  rank_cities_advanced d weights ctry limit = rank_cities d weights limit (Some ctry) /\
  (has_data d weights ctry = false ->
   rank_cities_advanced d weights ctry limit = Ok []).
Proof.
  intros Hw Hc.
  assert (Heq : rank_cities_advanced d weights ctry limit
                = rank_cities d weights limit (Some ctry)).
  { destruct weights; [contradiction|reflexivity]. }
  split; [exact Heq|]. intros Hno. rewrite Heq. unfold rank_cities.
  assert (Ht : truthy (Some ctry) = Some ctry) by (now destruct ctry).
  rewrite Ht, (rank_loop_without_data d weights ctry); [|exact Hno|].
  - simpl. unfold py_take. destruct (limit <? 0); now rewrite firstn_nil.
  - intros r Hr. apply filter_In in Hr as [Hr Hm]. split; [exact Hr|].
    unfold country_is in Hm. destruct (country r) as [s|]; [|discriminate].
    simpl in Hm. apply String.eqb_eq in Hm. now subst.
Qed.

End RankingEngine.

(** C1. With a non-empty weight map and no observation of the requested
    indicator in the country, [rank_cities_advanced] does not fall back
    to the population ranking: it returns the weighted ranking, which is
    empty.  The definition it replaces in the class body does fall back. *)
Theorem rank_cities_advanced_no_fallback :
  has_data cities_only_db [("TT1", 1%Q)] "FR" = false /\
  rank_cities_advanced cities_only_db [("TT1", 1%Q)] "FR" 5 = Ok [] /\
  rank_cities_advanced cities_only_db [] "FR" 5
  = Ok [ByPopulation (Some "Paris") (Some "FR") (Some 2100000);
        ByPopulation (Some "Lyon") (Some "FR") (Some 500000)] /\
  rank_cities_advanced_shadowed 2 cities_only_db [("TT1", 1%Q)] "FR" 5
  = Some (Ok [ByPopulation (Some "Paris") (Some "FR") (Some 2100000);
              ByPopulation (Some "Lyon") (Some "FR") (Some 500000)]).
Proof. repeat split. Qed.

(** The claim of C10 as it is worded, for every letter, fails: an entity
    is stored under the country Cote, with a circumflex on the o, and the
    filter is the same word in capitals.  The two are equal except in
    letter case and are not the same string, yet [list_cities] does not
    return the entity: SQL [UPPER] changes the letters a-z alone, and the
    two circumflex letters stay different bytes.  ([rank_cities] yields
    no row of it either, as the claim says.) *)
Lemma list_cities_misses_other_letters :
  In abidjan (cities cote_db) /\
  country abidjan = Some cote /\
  utf8_upper cote_capitals = utf8_upper cote /\
  cote_capitals <> cote /\
  list_cities cote_db (Some cote_capitals) = [] /\
  rank_cities cote_db [("TT1", 1%Q)] 10 (Some cote_capitals) = Ok [] /\
  equal_up_to_ascii_case cote_capitals cote = false.
Proof.
  split; [now left|]. split; [reflexivity|]. split; [reflexivity|].
  split; [discriminate|]. repeat split.
Qed.

(** C10 (amended). [list_cities] compares the country without regard to
    the case of the letters a-z, and of no other letter; [rank_cities]
    compares it as it is: for a stored entity and a filter that equals
    its country except in the case of letters a-z but is not the same
    string, [list_cities] returns the entity and [rank_cities] yields no
    row of its code. *)
Theorem list_cities_nocase_rank_cities_exact
    (d : db) (r : city_row) (s f : string) (weights : dict Q) (limit : Z) :
  NoDup (map city_code (cities d)) ->
  In r (cities d) ->
  country r = Some s ->
  equal_up_to_ascii_case f s = true ->
  f <> s ->
  In r (list_cities d (Some f)) /\
  forall x, In x (rows_of (rank_cities d weights limit (Some f))) ->
            ranking_code x <> Some (city_code r).
Proof.
  intros Hpk Hin Hs Hup Hne.
  apply equal_up_to_ascii_case_upper in Hup.
  assert (Hf : truthy (Some f) = Some f).
  { destruct f; [|reflexivity]. exfalso. apply Hne.
    symmetry. apply upper_empty. now rewrite <- Hup. }
  split.
  - unfold list_cities. rewrite Hf. apply stable_sort_In, filter_In.
    split; [exact Hin|]. unfold country_is_nocase. rewrite Hs, Hup.
    apply String.eqb_refl.
  - intros x Hx Hcode. unfold rank_cities in Hx. rewrite Hf in Hx.
    destruct (rank_loop d weights (filter (country_is f) (cities d)))
      as [rankings|] eqn:Hloop; simpl in Hx; [|contradiction].
    apply py_take_In, stable_sort_In in Hx.
    destruct (rank_loop_codes _ _ _ _ _ Hloop Hx) as (r' & Hr' & Hc).
    apply filter_In in Hr' as [Hr' Hctry].
    rewrite Hcode in Hc. injection Hc as Hc.
    assert (r = r') by (eapply NoDup_map_inj; eauto). subst r'.
    unfold country_is in Hctry. rewrite Hs in Hctry. simpl in Hctry.
    apply String.eqb_eq in Hctry. congruence.
Qed.

(** Paris is stored under FR; the filter is fr. *)
Lemma list_cities_nocase_rank_cities_exact_witness :
  In paris (list_cities sample_db (Some "fr")) /\
  forall x, In x (rows_of (rank_cities sample_db [("TT1", 1%Q)] 10 (Some "fr"))) ->
            ranking_code x <> Some "FR001C".
Proof.
  apply (list_cities_nocase_rank_cities_exact sample_db paris "FR" "fr"
           [("TT1", 1%Q)] 10).
  - repeat constructor; simpl; intuition discriminate.
  - simpl. auto.
  - reflexivity.
  - reflexivity.
  - discriminate.
Defined.

(** The store of the entity of Cote answers a filter that differs from
    the country in letters of a-z alone; the query by name of the country
    misses the capitals as [list_cities] does. *)
Example list_cities_folds_ascii_letters_alone :
  list_cities cote_db
    (Some (String "c" (String (ascii_of_N 195) (String (ascii_of_N 180) "TE"))))
  = [abidjan] /\
  get_cities_by_country cote_db cote_capitals = None /\
  get_cities_by_country cote_db cote = Some [Some "Abidjan"].
Proof. repeat split. Qed.

(** With the country as stored the entity is ranked. *)
Example rank_cities_exact_case :
  rank_cities sample_db [("TT1", 1%Q)] 10 (Some "FR")
  = Ok [Scored "FR001C" (Some "Paris") (Some "FR") (py_round3 ((0 + py_min (42 / 100000) 1 * 1) / (0 + 1)))]
  /\ rank_cities sample_db [("TT1", 1%Q)] 10 (Some "fr") = Ok [].
Proof. split; reflexivity. Qed.

(** * Further properties *)

(** ** Sorting *)

Section Sorting.
Context {A : Type}.
Variable before : A -> A -> bool.

Lemma insert_sorted_perm x l : Permutation (insert_sorted before x l) (x :: l).
Proof.
  induction l as [|y l IH]; simpl; [reflexivity|].
  destruct (before y x); [|reflexivity].
  rewrite IH. apply perm_swap.
Qed.

Lemma stable_sort_perm l : Permutation (stable_sort before l) l.
Proof.
  unfold stable_sort. induction l as [|x l IH]; simpl; [reflexivity|].
  rewrite insert_sorted_perm. now constructor.
Qed.

Lemma stable_sort_length l : length (stable_sort before l) = length l.
Proof. apply Permutation_length, stable_sort_perm. Qed.

Hypothesis before_asym : forall a b, before a b = true -> before b a = false.
Hypothesis precede_trans :
  forall a b c, may_precede before a b -> may_precede before b c ->
                may_precede before a c.

Lemma insert_sorted_sorted x l :
  StronglySorted (may_precede before) l ->
  StronglySorted (may_precede before) (insert_sorted before x l).
Proof.
  induction 1 as [|y l Hl IH Hy]; simpl.
  - repeat constructor.
  - destruct (before y x) eqn:Hyx.
    + constructor; [exact IH|].
      apply Forall_forall. intros z Hz.
      apply (Permutation_in _ (insert_sorted_perm x l)) in Hz.
      destruct Hz as [<-|Hz].
      * now apply before_asym.
      * rewrite Forall_forall in Hy. now apply Hy.
    + constructor; [now constructor|].
      constructor; [exact Hyx|].
      apply Forall_forall. intros z Hz. rewrite Forall_forall in Hy.
      apply (precede_trans x y z); [exact Hyx|now apply Hy].
Qed.

Lemma stable_sort_sorted l : StronglySorted (may_precede before) (stable_sort before l).
Proof.
  unfold stable_sort. induction l as [|x l IH]; simpl; [constructor|].
  now apply insert_sorted_sorted.
Qed.

End Sorting.

(** Sorting by a key and projecting the key is projecting and sorting. *)
Lemma stable_sort_map {A B : Type} (f : A -> B) (lt : B -> B -> bool) l :
  map f (stable_sort (fun a b => lt (f a) (f b)) l) = stable_sort lt (map f l).
Proof.
  unfold stable_sort. induction l as [|x l IH]; simpl; [reflexivity|].
  rewrite <- IH. generalize (fold_right (insert_sorted (fun a b => lt (f a) (f b))) [] l).
  intros s. induction s as [|y s IHs]; simpl; [reflexivity|].
  destruct (lt (f y) (f x)); simpl; [now rewrite IHs|reflexivity].
Qed.

Lemma firstn_sorted {A : Type} (R : A -> A -> Prop) n l :
  StronglySorted R l -> StronglySorted R (firstn n l).
Proof.
  intros H. revert n. induction H as [|x l Hl IH Hx]; intros [|n]; simpl;
    try constructor.
  - apply IH.
  - apply Forall_forall. intros y Hy. rewrite Forall_forall in Hx.
    apply Hx. eapply firstn_In, Hy.
Qed.

(** ** The byte order of strings *)

Section StringOrder.

Lemma ascii_compare_N a b :
  Ascii.compare a b = N.compare (N_of_ascii a) (N_of_ascii b).
Proof. reflexivity. Qed.

Lemma string_compare_trans_lt s :
  forall t u, String.compare s t = Lt -> String.compare t u = Lt ->
              String.compare s u = Lt.
Proof.
  induction s as [|a s IH]; intros [|b t] [|c u]; simpl; try discriminate; auto.
  rewrite !ascii_compare_N.
  destruct (N.compare_spec (N_of_ascii a) (N_of_ascii b)) as [Hab|Hab|Hab];
    destruct (N.compare_spec (N_of_ascii b) (N_of_ascii c)) as [Hbc|Hbc|Hbc];
    try discriminate; intros H1 H2.
  - rewrite Hab, Hbc, N.compare_refl. eapply IH; eauto.
  - assert (Hac : (N_of_ascii a ?= N_of_ascii c)%N = Lt)
      by (apply N.compare_lt_iff; lia). now rewrite Hac.
  - assert (Hac : (N_of_ascii a ?= N_of_ascii c)%N = Lt)
      by (apply N.compare_lt_iff; lia). now rewrite Hac.
  - assert (Hac : (N_of_ascii a ?= N_of_ascii c)%N = Lt)
      by (apply N.compare_lt_iff; lia). now rewrite Hac.
Qed.

Lemma string_compare_refl s : String.compare s s = Eq.
Proof.
  induction s as [|a s IH]; simpl; [reflexivity|].
  now rewrite ascii_compare_N, N.compare_refl.
Qed.

Lemma string_ltb_asym a b : String.ltb a b = true -> String.ltb b a = false.
Proof.
  unfold String.ltb. rewrite (String.compare_antisym b a).
  destruct (String.compare a b); simpl; congruence.
Qed.

(** [a <= b] and [b <= c] give [a <= c], with [x <= y] said as "not
    [y < x]". *)
Lemma string_ltb_negtrans a b c :
  String.ltb b a = false -> String.ltb c b = false -> String.ltb c a = false.
Proof.
  unfold String.ltb. intros Hba Hcb.
  destruct (String.compare c a) eqn:Hca; try reflexivity. exfalso.
  destruct (String.compare b a) eqn:E1; try discriminate;
    destruct (String.compare c b) eqn:E2; try discriminate.
  - apply String.compare_eq_iff in E1, E2. subst.
    rewrite string_compare_refl in Hca. discriminate.
  - apply String.compare_eq_iff in E1. subst. rewrite Hca in E2. discriminate.
  - apply String.compare_eq_iff in E2. subst. rewrite Hca in E1. discriminate.
  - rewrite String.compare_antisym in E1, E2.
    destruct (String.compare a b) eqn:Hab; try discriminate.
    destruct (String.compare b c) eqn:Hbc; try discriminate.
    pose proof (string_compare_trans_lt _ _ _ Hab Hbc) as Hac.
    rewrite String.compare_antisym, Hac in Hca. discriminate.
Qed.

Lemma name_ltb_asym a b : name_ltb a b = true -> name_ltb b a = false.
Proof.
  destruct a, b; simpl; try reflexivity; try discriminate. apply string_ltb_asym.
Qed.

Lemma name_ltb_negtrans a b c :
  name_ltb b a = false -> name_ltb c b = false -> name_ltb c a = false.
Proof.
  destruct a, b, c; simpl; try reflexivity; try discriminate.
  apply string_ltb_negtrans.
Qed.

End StringOrder.

(** ** CoordinateDecoder: indices out of range, and encoding first *)

Section CoordinateWrap.

Lemma digits_mod rsizes :
  Forall (fun s => 0 < s) rsizes ->
  forall index, digits rsizes (index mod product rsizes) = digits rsizes index.
Proof.
  induction 1 as [|s rest Hs Hrest IH]; intros index; simpl; [reflexivity|].
  pose proof (product_pos rest Hrest) as Hp. fold (product rest).
  rewrite Z.rem_mul_r by lia.
  assert (Hm : (index mod s + s * ((index / s) mod product rest)) mod s = index mod s).
  { rewrite Z.mul_comm, Z.mod_add by lia. apply Z.mod_mod. lia. }
  assert (Hd : (index mod s + s * ((index / s) mod product rest)) / s
               = (index / s) mod product rest).
  { rewrite Z.mul_comm, Z.div_add by lia.
    rewrite Z.div_small by (apply Z.mod_pos_bound; lia). lia. }
  now rewrite Hm, Hd, IH.
Qed.

Lemma digits_encode_rev rcoords rsizes :
  Forall2 (fun c s => 0 <= c < s) rcoords rsizes ->
  digits rsizes (encode_rev rcoords rsizes) = rcoords /\
  0 <= encode_rev rcoords rsizes < product rsizes.
Proof.
  induction 1 as [|c s cs ss Hc _ IH]; simpl; [split; [reflexivity|lia]|].
  destruct IH as [IH Hr]. fold (product ss).
  assert (Hm : (c + s * encode_rev cs ss) mod s = c).
  { rewrite Z.mul_comm, Z.mod_add by lia. apply Z.mod_small. lia. }
  assert (Hd : (c + s * encode_rev cs ss) / s = encode_rev cs ss).
  { rewrite Z.mul_comm, Z.div_add by lia. rewrite Z.div_small by lia. lia. }
  rewrite Hm, Hd, IH. split; [reflexivity|nia].
Qed.

Lemma Forall2_range_pos coords sizes :
  Forall2 (fun c s => 0 <= c < s) coords sizes -> Forall (fun s => 0 < s) sizes.
Proof. induction 1; constructor; [lia|assumption]. Qed.

End CoordinateWrap.

(** X1. For positive sizes the decoder does not reject an index outside
    the cube: it decodes it as the index reduced modulo the number of
    cells. *)
Theorem index_to_coords_wraps (sizes : list Z) (i : Z) :
  Forall (fun s => 0 < s) sizes ->
  _index_to_coords i sizes = _index_to_coords (i mod product sizes) sizes.
Proof.
  intros Hpos. rewrite !index_to_coords_Ok by (now apply pos_nonzero).
  rewrite <- product_rev, digits_mod by (now apply Forall_rev). reflexivity.
Qed.

(** Index 7 of a 2 x 3 cube decodes as index 1. *)
Lemma index_to_coords_wraps_witness :
  _index_to_coords 7 [2; 3] = _index_to_coords (7 mod product [2; 3]) [2; 3].
Proof.
  apply (index_to_coords_wraps [2; 3] 7). repeat constructor.
Defined.

(** X2. Encoding coordinates that lie within the sizes gives an index of
    the cube, and decoding that index gives the coordinates back. *)
Theorem coords_to_index_roundtrip (coords sizes : list Z) :
  Forall2 (fun c s => 0 <= c < s) coords sizes ->
  0 <= coords_to_index coords sizes < product sizes /\
  _index_to_coords (coords_to_index coords sizes) sizes = Ok coords.
Proof.
  intros Hr. pose proof (Forall2_range_pos _ _ Hr) as Hpos.
  destruct (digits_encode_rev _ _ (Forall2_rev_rev _ _ _ Hr)) as [Hd Hb].
  unfold coords_to_index. split.
  - now rewrite <- product_rev.
  - rewrite index_to_coords_Ok by (now apply pos_nonzero).
    now rewrite Hd, rev_involutive.
Qed.

Lemma coords_to_index_roundtrip_witness :
  0 <= coords_to_index [1; 2] [2; 3] < product [2; 3] /\
  _index_to_coords (coords_to_index [1; 2] [2; 3]) [2; 3] = Ok [1; 2].
Proof.
  apply (coords_to_index_roundtrip [1; 2] [2; 3]).
  repeat constructor; lia.
Defined.

(** ** CubeDecoder: when it raises, and the dimension fields *)

Section CubeOutcome.

Lemma decode_dims_short dimensions names :
  forall coords rec,
    (length coords < length names)%nat ->
    decode_dims dimensions names coords rec = Raise IndexError.
Proof.
  induction names as [|n names IH]; intros coords rec Hlen; simpl in *; [lia|].
  destruct coords as [|c coords]; [reflexivity|]. apply IH. simpl in Hlen. lia.
Qed.

Lemma decode_dims_absent dimensions names :
  forall coords rec rec' j dn idx,
    decode_dims dimensions names coords rec = Ok rec' ->
    NoDup names ->
    (forall a b, In a names -> In b names -> String.append a "_label" <> b) ->
    nth_error names j = Some dn ->
    nth_error coords j = Some idx ->
    find_code (cat_index (indices dimensions dn)) idx = None ->
    dict_get rec' dn = dict_get rec dn /\
    dict_get rec' (String.append dn "_label") = dict_get rec (String.append dn "_label").
Proof.
  induction names as [|dn0 names IH]; intros coords rec rec' j dn idx Hd Hnd Hlab.
  - now destruct j.
  - destruct coords as [|idx0 coords]; [discriminate|]. simpl in Hd.
    inversion Hnd as [|? ? Hnotin Hnd']; subst.
    destruct j as [|j]; simpl.
    + intros [= <-] [= <-] Hfind.
      rewrite (decode_dims_other _ _ _ _ _ dn0 Hd Hnotin).
      2: { intros dn Hin E. apply (Hlab dn dn0); [now right|now left|auto]. }
      rewrite (decode_dims_other _ _ _ _ _ (String.append dn0 "_label") Hd).
      2: { intros Hin. apply (Hlab dn0 (String.append dn0 "_label")); auto.
           now left. now right. }
      2: { intros dn Hin E. apply append_cancel_r in E. subst dn. contradiction. }
      unfold decode_dim. rewrite Hfind. split; reflexivity.
    + intros Hn Hc Hfind.
      assert (Hin : In dn names) by (eapply nth_error_In, Hn).
      destruct (IH _ _ _ j dn idx Hd Hnd') as [H1 H2]; auto.
      { intros a b Ha Hb. apply Hlab; now right. }
      rewrite H1, H2. split; apply decode_dim_other.
      * intros ->. contradiction.
      * intros E. apply (Hlab dn0 dn); [now left|now right|auto].
      * intros E. apply (Hlab dn (String.append dn "_label")); auto.
        now right. rewrite E. now left.
      * intros E. apply append_cancel_r in E. subst. contradiction.
Qed.

End CubeOutcome.

(** X3. What [parse_jsonstat] does with the shape of a cube: an empty
    value array gives no record whatever the sizes are; with a value, a
    declared size of zero raises ZeroDivisionError, and fewer sizes than
    dimension names (none zero) raise IndexError. *)
Theorem parse_jsonstat_outcome (data : cube) :
  (cube_value data = [] -> parse_jsonstat data = Ok []) /\
  (cube_value data <> [] -> In 0 (cube_size data) ->
   parse_jsonstat data = Raise ZeroDivisionError) /\
  (cube_value data <> [] -> ~ In 0 (cube_size data) ->
   (length (cube_size data) < length (cube_id data))%nat ->
   parse_jsonstat data = Raise IndexError).
Proof.
  unfold parse_jsonstat. split; [intros ->; reflexivity|]. split.
  - intros Hv Hz. destruct (cube_value data) as [|v vs]; [contradiction|].
    simpl. unfold decode_cell, _index_to_coords.
    rewrite index_to_coords_loop_zero by (now apply in_rev in Hz). reflexivity.
  - intros Hv Hz Hlen. destruct (cube_value data) as [|v vs]; [contradiction|].
    simpl. unfold decode_cell.
    rewrite index_to_coords_Ok.
    + simpl. rewrite decode_dims_short; [reflexivity|].
      now rewrite length_rev, digits_length, length_rev.
    + apply Forall_forall. intros s Hs ->. contradiction.
Qed.

(** A cube with a zero size and one with two names for one size. *)
Lemma parse_jsonstat_outcome_witness :
  parse_jsonstat {| cube_dimension := []; cube_value := [];
                    cube_status := []; cube_size := [0]; cube_id := ["cities"] |}
  = Ok [] /\
  parse_jsonstat {| cube_dimension := []; cube_value := [Some 1%Q];
                    cube_status := []; cube_size := [0]; cube_id := ["cities"] |}
  = Raise ZeroDivisionError /\
  parse_jsonstat {| cube_dimension := []; cube_value := [Some 1%Q];
                    cube_status := []; cube_size := [1];
                    cube_id := ["cities"; "time"] |}
  = Raise IndexError.
Proof.
  split; [|split].
  - apply (parse_jsonstat_outcome
             {| cube_dimension := []; cube_value := [];
                cube_status := []; cube_size := [0]; cube_id := ["cities"] |}).
    reflexivity.
  - apply (parse_jsonstat_outcome
             {| cube_dimension := []; cube_value := [Some 1%Q];
                cube_status := []; cube_size := [0]; cube_id := ["cities"] |}).
    + discriminate.
    + simpl. auto.
  - apply (parse_jsonstat_outcome
             {| cube_dimension := []; cube_value := [Some 1%Q];
                cube_status := []; cube_size := [1];
                cube_id := ["cities"; "time"] |}).
    + discriminate.
    + simpl. intros [H|[]]. discriminate.
    + simpl. lia.
Defined.

(** X4. With distinct dimension names, none of them [value], [status] or
    the label key of another, the record of flat index [n] holds, for
    each dimension, the category whose index is the dimension's coordinate
    of [n], with its label (the code when it has none); when no category has
    that index the record has neither key. *)
Theorem parse_jsonstat_dimension_fields (data : cube) (records : list record) :
  parse_jsonstat data = Ok records ->
  NoDup (cube_id data) ->
  (forall a b, In a (cube_id data) -> In b (cube_id data) ->
     String.append a "_label" <> b) ->
  ~ In "value" (cube_id data) ->
  ~ In "status" (cube_id data) ->
  forall n rec coords j dn c,
    nth_error records n = Some rec ->
    _index_to_coords (Z.of_nat n) (cube_size data) = Ok coords ->
    nth_error (cube_id data) j = Some dn ->
    nth_error coords j = Some c ->
    match find_code (cat_index (indices (cube_dimension data) dn)) c with
    | Some key =>
        dict_get rec dn = Some (PStr key) /\
        dict_get rec (String.append dn "_label")
        = Some (PStr (label_of (cat_label (indices (cube_dimension data) dn)) key))
    | None =>
        dict_get rec dn = None /\ dict_get rec (String.append dn "_label") = None
    end.
Proof.
  intros Hp Hnd Hlab Hv Hs n rec coords j dn c Hn Hcoords Hj Hc.
  unfold parse_jsonstat in Hp.
  destruct (decode_cells_nth _ _ _ _ _ _ Hp Hn) as (value & _ & Hcell).
  rewrite Z.add_0_l in Hcell.
  destruct (find_code _ c) as [key|] eqn:Hfind.
  - eapply decode_cell_dimension_fields; eauto.
  - unfold decode_cell in Hcell. rewrite Hcoords in Hcell. simpl in Hcell.
    destruct (decode_dims _ _ coords []) as [rec0|] eqn:Hd; simpl in Hcell;
      [|discriminate].
    injection Hcell as <-.
    destruct (decode_dims_absent _ _ _ _ _ j dn c Hd Hnd Hlab Hj Hc Hfind)
      as [H1 H2].
    assert (Hin : In dn (cube_id data)) by (eapply nth_error_In, Hj).
    assert (Hl1 : "value" <> String.append dn "_label").
    { intros E. symmetry in E. now apply label_key_not_value in E. }
    assert (Hl2 : "status" <> String.append dn "_label").
    { intros E. pose proof (endswith_append dn "_label") as He.
      rewrite <- E in He. discriminate. }
    split.
    + rewrite !dict_get_set_ne by congruence. exact H1.
    + rewrite !dict_get_set_ne by assumption. exact H2.
Qed.

(** The cube of declared size 2: its record has the first category. *)
Lemma parse_jsonstat_dimension_fields_witness :
  dict_get [("cities", PStr "FR001C"); ("cities_label", PStr "Paris");
            ("value", PNum 42%Q); ("status", PStr "")] "cities"
  = Some (PStr "FR001C") /\
  dict_get [("cities", PStr "FR001C"); ("cities_label", PStr "Paris");
            ("value", PNum 42%Q); ("status", PStr "")] "cities_label"
  = Some (PStr "Paris").
Proof.
  assert (H1 : NoDup (cube_id short_cube)) by (repeat constructor; simpl; tauto).
  assert (H2 : forall a b, In a (cube_id short_cube) -> In b (cube_id short_cube) ->
                 String.append a "_label" <> b).
  { simpl. intros a b [<-|[]] [<-|[]]. discriminate. }
  assert (H3 : ~ In "value" (cube_id short_cube)).
  { simpl. intros [H|[]]. discriminate. }
  assert (H4 : ~ In "status" (cube_id short_cube)).
  { simpl. intros [H|[]]. discriminate. }
  exact (parse_jsonstat_dimension_fields short_cube _ eq_refl H1 H2 H3 H4
           0%nat _ [0] 0%nat "cities" 0 eq_refl eq_refl eq_refl eq_refl).
Defined.

(** ** Ingestion: the entities it keeps and what its counters count *)

Section IngestionCounters.
Variable B : builtins.

Lemma insert_or_replace_length table row :
  (length (insert_or_replace_indicator table row) <= length table + 1)%nat.
Proof.
  unfold insert_or_replace_indicator. rewrite length_app. simpl.
  pose proof (filter_length_le (fun r => negb (unique_conflict r row)) table). lia.
Qed.

Lemma existsb_code_false table code :
  existsb (fun r => String.eqb (city_code r) code) table = false ->
  ~ In code (map city_code table).
Proof.
  intros He Hin. apply in_map_iff in Hin as (r & <- & Hr).
  pose proof (existsb_false _ _ r He Hr) as H. cbv beta in H.
  now rewrite String.eqb_refl in H.
Qed.

(** One step of the loop: the city rows it appends, and its counters. *)
Lemma store_record_step d c rec :
  (exists added,
      cities (fst (store_record B (d, c) rec)) = cities d ++ added /\
      cities_added (snd (store_record B (d, c) rec))
      = cities_added c + Z.of_nat (length added) /\
      (forall r, In r added -> ~ In (city_code r) (map city_code (cities d))) /\
      (length added <= 1)%nat) /\
  skipped c <= skipped (snd (store_record B (d, c) rec)) /\
  errors c <= errors (snd (store_record B (d, c) rec)) /\
  indicators_added c <= indicators_added (snd (store_record B (d, c) rec)) /\
  handled (snd (store_record B (d, c) rec)) <= handled c + 1 /\
  Z.of_nat (length (indicators (fst (store_record B (d, c) rec))))
  + indicators_added c
  <= Z.of_nat (length (indicators d))
     + indicators_added (snd (store_record B (d, c) rec)).
Proof.
  assert (Hnone : forall c',
    cities_added c' = cities_added c ->
    skipped c <= skipped c' -> errors c <= errors c' ->
    indicators_added c = indicators_added c' -> handled c' <= handled c + 1 ->
    (exists added,
        cities (fst (d, c')) = cities d ++ added /\
        cities_added (snd (d, c')) = cities_added c + Z.of_nat (length added) /\
        (forall r, In r added -> ~ In (city_code r) (map city_code (cities d))) /\
        (length added <= 1)%nat) /\
    skipped c <= skipped (snd (d, c')) /\
    errors c <= errors (snd (d, c')) /\
    indicators_added c <= indicators_added (snd (d, c')) /\
    handled (snd (d, c')) <= handled c + 1 /\
    Z.of_nat (length (indicators (fst (d, c')))) + indicators_added c
    <= Z.of_nat (length (indicators d)) + indicators_added (snd (d, c'))).
  { intros c' H1 H2 H3 H4 H5. simpl. split.
    - exists []. rewrite app_nil_r. simpl.
      repeat split; auto; try lia; try (intros r []).
    - repeat split; lia. }
  unfold store_record.
  destruct (first_key (fun k => endswith k "ies") rec) as [city_key|];
    [|apply Hnone; unfold handled; simpl; lia].
  destruct (record_get rec city_key) as [|code|q];
    [apply Hnone; unfold handled; simpl; lia| |].
  2: { destruct (Qeq_bool q 0); apply Hnone; unfold handled; simpl; lia. }
  destruct (String.eqb code "" || negb (endswith code "C"));
    [apply Hnone; unfold handled; simpl; lia|].
  clear Hnone. unfold insert_or_ignore_city.
  set (name := sql_text B (record_get rec (String.append city_key "_label"))).
  set (row := {| city_code := code; city_name := name;
                 country := Some (upper (str_take 2 code));
                 lat := None; lng := None; population := None |}).
  destruct (existsb (fun r => String.eqb (city_code r) code) (cities d)) eqn:He.
  - assert (Hadd : exists added,
        cities d = cities d ++ added /\
        cities_added c = cities_added c + Z.of_nat (length added) /\
        (forall r, In r added -> ~ In (city_code r) (map city_code (cities d))) /\
        (length added <= 1)%nat).
    { exists []. rewrite app_nil_r. simpl.
      repeat split; auto; try lia; try (intros r []). }
    unfold store_indicator.
    destruct (first_key (fun k => startswith k "indic") rec) as [indic_key|];
      [|simpl; split; [exact Hadd|unfold handled; repeat split; lia]].
    destruct (record_year B rec) as [year|];
      [|simpl; split; [exact Hadd|unfold handled; simpl; repeat split; lia]].
    destruct (record_value B rec) as [value|];
      [|simpl; split; [exact Hadd|unfold handled; simpl; repeat split; lia]].
    destruct (negb (sqlite_int_ok year));
      [simpl; split; [exact Hadd|unfold handled; simpl; repeat split; lia]|].
    cbn [fst snd cities indicators]. split; [exact Hadd|].
    match goal with
    | |- context [insert_or_replace_indicator ?t ?r] =>
        pose proof (insert_or_replace_length t r) as Hlen
    end.
    unfold handled. simpl. repeat split; lia.
  - assert (Hadd : exists added,
        cities d ++ [row] = cities d ++ added /\
        cities_added c + 1 = cities_added c + Z.of_nat (length added) /\
        (forall r, In r added -> ~ In (city_code r) (map city_code (cities d))) /\
        (length added <= 1)%nat).
    { exists [row]. simpl. repeat split; auto.
      intros r [<-|[]]. simpl. now apply existsb_code_false. }
    unfold store_indicator.
    destruct (first_key (fun k => startswith k "indic") rec) as [indic_key|];
      [|simpl; split; [exact Hadd|unfold handled; simpl; repeat split; lia]].
    destruct (record_year B rec) as [year|];
      [|simpl; split; [exact Hadd|unfold handled; simpl; repeat split; lia]].
    destruct (record_value B rec) as [value|];
      [|simpl; split; [exact Hadd|unfold handled; simpl; repeat split; lia]].
    destruct (negb (sqlite_int_ok year));
      [simpl; split; [exact Hadd|unfold handled; simpl; repeat split; lia]|].
    cbn [fst snd cities indicators count_city count_indicator cities_added].
    split; [exact Hadd|].
    match goal with
    | |- context [insert_or_replace_indicator ?t ?r] =>
        pose proof (insert_or_replace_length t r) as Hlen
    end.
    unfold handled. simpl. repeat split; lia.
Qed.

Lemma NoDup_snoc {A : Type} (l : list A) x :
  NoDup l -> ~ In x l -> NoDup (l ++ [x]).
Proof.
  induction 1 as [|y l Hy Hl IH]; intros Hx; simpl.
  - constructor; [auto|constructor].
  - constructor.
    + rewrite in_app_iff. simpl. intros [H|[H|[]]]; [auto|]. subst. apply Hx. now left.
    + apply IH. intros H. apply Hx. now right.
Qed.

Lemma store_loop_counts records :
  forall d c,
    (exists added,
        cities (fst (fold_left (store_record B) records (d, c))) = cities d ++ added /\
        cities_added (snd (fold_left (store_record B) records (d, c)))
        = cities_added c + Z.of_nat (length added) /\
        (length added <= length records)%nat /\
        (codes_unique (cities d) ->
         codes_unique (cities (fst (fold_left (store_record B) records (d, c)))))) /\
    skipped c <= skipped (snd (fold_left (store_record B) records (d, c))) /\
    errors c <= errors (snd (fold_left (store_record B) records (d, c))) /\
    indicators_added c
    <= indicators_added (snd (fold_left (store_record B) records (d, c))) /\
    handled (snd (fold_left (store_record B) records (d, c)))
    <= handled c + Z.of_nat (length records) /\
    Z.of_nat (length (indicators (fst (fold_left (store_record B) records (d, c)))))
    + indicators_added c
    <= Z.of_nat (length (indicators d))
       + indicators_added (snd (fold_left (store_record B) records (d, c))).
Proof.
  induction records as [|rec records IH]; intros d c; cbn [fold_left].
  - simpl. split; [|repeat split; lia].
    exists []. rewrite app_nil_r. simpl. repeat split; auto; lia.
  - pose proof (store_record_step d c rec) as Hstep.
    destruct (store_record B (d, c) rec) as [d1 c1]. cbn [fst snd] in Hstep.
    destruct Hstep as ((a1 & Hc1 & Hn1 & Hfresh & Hlen1) & Hs1 & He1 & Hi1 & Hh1 & Hl1).
    destruct (IH d1 c1) as ((a2 & Hc2 & Hn2 & Hlen2 & Hu2) & Hs2 & He2 & Hi2 & Hh2 & Hl2).
    split; [|cbn [length]; repeat split; lia].
    exists (a1 ++ a2). rewrite Hc2, Hc1, <- app_assoc. split; [reflexivity|].
    rewrite Hn2, Hn1, length_app. split; [rewrite Nat2Z.inj_add; lia|].
    split; [clear - Hlen1 Hlen2; simpl; lia|].
    intros Hu. rewrite app_assoc, <- Hc1, <- Hc2. apply Hu2.
    rewrite Hc1. unfold codes_unique in *.
    destruct a1 as [|r [|r' a1]]; [now rewrite app_nil_r| |simpl in Hlen1; lia].
    rewrite map_app. simpl. apply NoDup_snoc; [exact Hu|].
    apply Hfresh. now left.
Qed.

End IngestionCounters.

(** X6. Ingestion never changes or removes an entity that the store
    holds: the entities afterwards are the ones before, in place, followed
    by the new ones; [cities_added] is the number of new ones; and the
    codes stay distinct. *)
Theorem store_data_keeps_cities (B : builtins) (d : db) (dataset : cube)
    (d' : db) (c' : counters) :
  store_data B d dataset = Ok (d', c') ->
  exists added,
    cities d' = cities d ++ added /\
    cities_added c' = Z.of_nat (length added) /\
    (codes_unique (cities d) -> codes_unique (cities d')).
Proof.
  unfold store_data.
  destruct (parse_jsonstat dataset) as [records|]; simpl; [|discriminate].
  intros [= H].
  destruct (store_loop_counts B records d zero_counters)
    as ((added & Hc & Hn & _ & Hu) & _).
  rewrite H in Hc, Hn, Hu. simpl in Hc, Hn, Hu. eauto.
Qed.

(** Paris stays as the gazetteer has it when a cube brings FR001C. *)
Lemma store_data_keeps_cities_witness :
  exists added,
    cities (fst (rows_of_store (store_data example_builtins sample_db
                                  (one_cell dated_dims 42%Q))))
    = cities sample_db ++ added.
Proof.
  destruct (store_data_keeps_cities example_builtins sample_db
              (one_cell dated_dims 42%Q) _ _ eq_refl) as (added & H & _).
  exists added. exact H.
Defined.

(** X7. The counters of a batch: none is negative; the records counted as
    skipped, failed or stored are at most the cells of the cube; and the
    observations table grows by at most [indicators_added], which also
    counts the rows that replace one. *)
Theorem store_data_counters (B : builtins) (d : db) (dataset : cube)
    (d' : db) (c' : counters) :
  store_data B d dataset = Ok (d', c') ->
  0 <= cities_added c' /\ 0 <= indicators_added c' /\
  0 <= skipped c' /\ 0 <= errors c' /\
  cities_added c' <= Z.of_nat (length (cube_value dataset)) /\
  skipped c' + errors c' + indicators_added c'
  <= Z.of_nat (length (cube_value dataset)) /\
  Z.of_nat (length (indicators d'))
  <= Z.of_nat (length (indicators d)) + indicators_added c'.
Proof.
  unfold store_data.
  destruct (parse_jsonstat dataset) as [records|] eqn:Hp; simpl; [|discriminate].
  intros [= H].
  pose proof (decode_cells_length _ _ _ _ Hp) as Hlen.
  destruct (store_loop_counts B records d zero_counters)
    as ((added & _ & Hn & Hl & _) & Hs & He & Hi & Hh & Hg).
  rewrite H in *. cbn [fst snd] in *. unfold handled in Hh. simpl in *.
  rewrite <- Hlen. repeat split; lia.
Qed.

Lemma store_data_counters_witness :
  skipped (snd (rows_of_store (store_data example_builtins sample_db
                                 (one_cell dated_dims 42%Q))))
  + errors (snd (rows_of_store (store_data example_builtins sample_db
                                  (one_cell dated_dims 42%Q))))
  + indicators_added (snd (rows_of_store (store_data example_builtins sample_db
                                            (one_cell dated_dims 42%Q))))
  <= 1.
Proof.
  apply (store_data_counters example_builtins sample_db
           (one_cell dated_dims 42%Q) _ _ eq_refl).
Defined.

(** ** ScoringEngine: after ingestion, and the direction of an indicator *)

(** The dated triples of the empty store, and of two writes. *)
Lemma store_data_dated_triples_witness :
  obs_unique (indicators empty_db) /\
  filter (has_triple "FR001C" "TT1" 2020)
    (insert_or_replace_indicator
       (insert_or_replace_indicator (indicators empty_db)
          (observation "FR001C" "TT1" "Population" 2020 42%Q))
       (observation "FR001C" "TT1" "Population" 2020 43%Q))
  = [observation "FR001C" "TT1" "Population" 2020 43%Q].
Proof.
  assert (Hu : obs_unique (indicators empty_db)) by (intros ? ? ?; simpl; lia).
  split; [exact Hu|].
  apply (store_data_dated_triples example_builtins empty_db Hu); reflexivity.
Defined.

(** X9. In a store that ingestion has filled, starting from one without
    NULL indicator names (the empty store for one), [calculate_score]
    raises for no entity and no weight map. *)
Theorem calculate_score_after_ingestion (B : builtins) (d : db) (dataset : cube)
    (d' : db) (c' : counters) (code : string) (weights : dict Q) :
  all_named (indicators d) ->
  store_data B d dataset = Ok (d', c') ->
  all_named (indicators d') /\
  exists s, calculate_score d' code weights = Ok s.
Proof.
  intros Hn Hs. pose proof (store_data_named B d dataset d' c' Hn Hs) as Hn'.
  split; [exact Hn'|]. unfold calculate_score.
  destruct (score_loop_sums d' code weights
              (all_named_names_present d' code weights Hn') 0%Q 0%Q)
    as (ts & tw & -> & _). simpl. eauto.
Qed.

Lemma calculate_score_after_ingestion_witness :
  exists s,
    calculate_score
      (fst (rows_of_store (store_data example_builtins empty_db
                             (one_cell dated_dims 42%Q))))
      "FR001C" [("TT1", 1%Q)] = Ok s.
Proof.
  apply (calculate_score_after_ingestion example_builtins empty_db
           (one_cell dated_dims 42%Q) _
           (snd (rows_of_store (store_data example_builtins empty_db
                                  (one_cell dated_dims 42%Q))))
           "FR001C" [("TT1", 1%Q)]).
  - constructor.
  - reflexivity.
Defined.

(** Paris, with a population figure of 42 under weight 1. *)
Lemma calculate_score_unit_witness :
  exists s, calculate_score sample_db "FR001C" [("TT1", 1%Q)] = Ok s /\ (0 <= s <= 1)%Q.
Proof.
  apply (calculate_score_unit sample_db "FR001C" [("TT1", 1%Q)]).
  - intros item value [<-|[]]. vm_compute. discriminate.
  - repeat constructor.
  - intros item value name [<-|[]]. vm_compute. intros [= <- _]. discriminate.
Defined.

(** X11. What enters the score of an indicator moves with its value in
    the direction of its polarity: down when the name has a
    lower-is-better keyword, up otherwise; and it is at most 1 in the
    second case and at least 0 in the first. *)
Theorem adjusted_polarity (name : string) (v v' : Q) :
  (v <= v')%Q ->
  if _is_lower_better name
  then (adjusted v' name <= adjusted v name)%Q /\ (0 <= adjusted v name)%Q
  else (adjusted v name <= adjusted v' name)%Q /\ (adjusted v name <= 1)%Q.
Proof.
  intros Hv. unfold adjusted. cbv zeta.
  pose proof (normalize_spec_monotone v v' name Hv) as Hm.
  pose proof (normalize_spec_le_1 v name) as H1.
  rewrite <- (normalize_value_spec v name), <- (normalize_value_spec v' name) in Hm.
  rewrite <- normalize_value_spec in H1.
  destruct (_is_lower_better name); split; lra.
Qed.

Lemma adjusted_polarity_witness :
  (adjusted 30 "Travel time in minutes" <= adjusted 20 "Travel time in minutes")%Q /\
  (adjusted 20 "Green area (%)" <= adjusted 30 "Green area (%)")%Q.
Proof.
  split.
  - apply (adjusted_polarity "Travel time in minutes" 20 30). vm_compute. discriminate.
  - apply (adjusted_polarity "Green area (%)" 20 30). vm_compute. discriminate.
Defined.

(** ** RankingEngine: order, length and origin of the rows *)

Section RankingOrder.

Lemma StronglySorted_weaken {A : Type} (R R' : A -> A -> Prop) l :
  (forall a b, R a b -> R' a b) -> StronglySorted R l -> StronglySorted R' l.
Proof.
  intros HR. induction 1 as [|x l Hl IH Hx]; constructor; [exact IH|].
  revert Hx. apply Forall_impl. intros b. apply HR.
Qed.

Lemma py_take_sorted {A : Type} (R : A -> A -> Prop) n l :
  StronglySorted R l -> StronglySorted R (py_take n l).
Proof. unfold py_take. destruct (n <? 0); apply firstn_sorted. Qed.

Lemma py_take_length {A : Type} n (l : list A) :
  0 <= n -> Z.of_nat (length (py_take n l)) <= n.
Proof.
  intros Hn. unfold py_take. destruct (Z.ltb_spec n 0); [lia|].
  pose proof (firstn_le_length (Z.to_nat n) l). lia.
Qed.

Lemma sql_limit_In {A : Type} n (l : list A) x : In x (sql_limit n l) -> In x l.
Proof. unfold sql_limit. destruct (n <? 0); [auto|apply firstn_In]. Qed.

Lemma round_half_even_nonneg x : (0 <= x)%Q -> 0 <= round_half_even x.
Proof.
  intros Hx. unfold round_half_even.
  pose proof (Qfloor_resp_le 0 x Hx) as Hf. change (Qfloor 0) with 0 in Hf.
  destruct (Qcompare _ _); [destruct (Z.even _)| |]; lia.
Qed.

Lemma py_round3_nonneg s : (0 <= s)%Q -> (0 <= py_round3 s)%Q.
Proof.
  intros Hs. unfold py_round3.
  assert (H : (0 <= s * 1000)%Q) by (apply Qmult_le_0_compat; [exact Hs|discriminate]).
  apply round_half_even_nonneg in H.
  apply Qle_shift_div_l; [reflexivity|]. rewrite Qmult_0_l.
  change 0%Q with (inject_Z 0). now rewrite <- Zle_Qle.
Qed.

(** What [rank_cities] appends for a city: its row, when the score is
    positive. *)
Lemma rank_loop_rows d weights rows :
  forall rankings x,
    rank_loop d weights rows = Ok rankings ->
    In x rankings ->
    exists r s,
      In r rows /\
      calculate_score d (city_code r) weights = Ok s /\ (0 < s)%Q /\
      x = Scored (city_code r) (city_name r) (country r) (py_round3 s).
Proof.
  induction rows as [|r rows IH]; intros rankings x; simpl.
  - now intros [= <-].
  - destruct (calculate_score d (city_code r) weights) as [score|] eqn:Hs; simpl;
      [|discriminate].
    destruct (rank_loop d weights rows) as [rest|]; simpl; [|discriminate].
    intros [= <-] Hin.
    assert (Hrest : In x rest ->
      exists r0 s, (r = r0 \/ In r0 rows) /\
        calculate_score d (city_code r0) weights = Ok s /\ (0 < s)%Q /\
        x = Scored (city_code r0) (city_name r0) (country r0) (py_round3 s)).
    { intros H. destruct (IH rest x eq_refl H) as (r0 & s & H0 & H1). eauto. }
    destruct (Qlt_le_dec 0 score) as [Hpos|]; [|auto].
    destruct Hin as [<-|Hin]; [|auto]. exists r, score. auto.
Qed.

Lemma score_before_asym (a b : ranking) :
  (if Qlt_le_dec (ranking_score b) (ranking_score a) then true else false) = true ->
  (if Qlt_le_dec (ranking_score a) (ranking_score b) then true else false) = false.
Proof.
  destruct (Qlt_le_dec (ranking_score b) (ranking_score a)) as [H|]; [|discriminate].
  intros _. destruct (Qlt_le_dec (ranking_score a) (ranking_score b)) as [H'|];
    [|reflexivity].
  exfalso. apply (Qlt_irrefl (ranking_score a)). eapply Qlt_trans; eauto.
Qed.

Lemma population_ltb_asym a b :
  population_ltb a b = true -> population_ltb b a = false.
Proof.
  destruct a, b; simpl; try reflexivity; try discriminate.
  rewrite Z.ltb_lt, Z.ltb_ge. lia.
Qed.

Lemma population_ltb_negtrans a b c :
  population_ltb a b = false -> population_ltb b c = false ->
  population_ltb a c = false.
Proof.
  destruct a, b, c; simpl; try reflexivity; try discriminate.
  rewrite !Z.ltb_ge. lia.
Qed.

(** The rows of the population ranking. *)
Lemma by_population_rows rows limit :
  exists sel,
    by_population rows limit
    = map (fun r => ByPopulation (city_name r) (country r) (population r)) sel /\
    StronglySorted
      (fun a b => population_ltb (population a) (population b) = false) sel /\
    (forall r, In r sel -> In r rows) /\
    (0 <= limit -> Z.of_nat (length sel) <= limit) /\
    (limit < 0 -> Permutation sel rows).
Proof.
  unfold by_population.
  set (before := fun a b : city_row => population_ltb (population b) (population a)).
  exists (sql_limit limit (stable_sort before rows)).
  assert (Hsorted : StronglySorted
            (fun a b => population_ltb (population a) (population b) = false)
            (stable_sort before rows)).
  { apply (stable_sort_sorted before).
    - intros a b. apply population_ltb_asym.
    - intros a b c. unfold may_precede, before. apply population_ltb_negtrans. }
  split; [reflexivity|]. unfold sql_limit. repeat split.
  - destruct (limit <? 0); [exact Hsorted|now apply firstn_sorted].
  - intros r Hr. apply (stable_sort_In before).
    destruct (limit <? 0); [exact Hr|eapply firstn_In, Hr].
  - intros Hl. destruct (Z.ltb_spec limit 0); [lia|].
    pose proof (firstn_le_length (Z.to_nat limit) (stable_sort before rows)). lia.
  - intros Hl. destruct (Z.ltb_spec limit 0); [|lia]. apply stable_sort_perm.
Qed.

Lemma country_is_eq c r : country_is c r = true -> country r = Some c.
Proof.
  unfold country_is. destruct (country r) as [s|]; [|discriminate]. simpl.
  intros H. apply String.eqb_eq in H. now subst.
Qed.

(** Every row of [rank_cities_advanced], for a country that is not the
    empty string, carries that country. *)
Lemma rank_cities_advanced_country d weights ctry limit x :
  ctry <> "" ->
  In x (rows_of (rank_cities_advanced d weights ctry limit)) ->
  ranking_country x = Some ctry.
Proof.
  intros Hc. unfold rank_cities_advanced. destruct weights as [|w weights].
  - simpl. destruct (by_population_rows (filter (country_is ctry) (cities d)) limit)
      as (sel & -> & _ & Hin & _).
    intros Hx. apply in_map_iff in Hx as (r & <- & Hr). simpl.
    apply Hin, filter_In in Hr as [_ Hr]. now apply country_is_eq.
  - unfold rank_cities.
    assert (Ht : truthy (Some ctry) = Some ctry) by (now destruct ctry).
    rewrite Ht.
    destruct (rank_loop d (w :: weights) (filter (country_is ctry) (cities d)))
      as [rankings|] eqn:Hloop; simpl; [|contradiction].
    intros Hx. apply py_take_In, stable_sort_In in Hx.
    destruct (rank_loop_rows _ _ _ _ _ Hloop Hx) as (r & s & Hr & _ & _ & ->).
    simpl. apply filter_In in Hr as [_ Hr]. now apply country_is_eq.
Qed.

End RankingOrder.

(** X12. The rows of [rank_cities] are in non-increasing order of the
    rounded score and, for a limit that is not negative, no more than the
    limit; each is the row of a stored city whose score before rounding
    is positive, so that the rounded score shown is at least 0; and with a
    country filter that is not empty the city has exactly that country. *)
Theorem rank_cities_rows (d : db) (weights : dict Q) (limit : Z)
    (country_filter : option string) (rankings : list ranking) :
  rank_cities d weights limit country_filter = Ok rankings ->
  StronglySorted (fun a b => (ranking_score b <= ranking_score a)%Q) rankings /\
  (0 <= limit -> Z.of_nat (length rankings) <= limit) /\
  forall x, In x rankings ->
    exists r s,
      In r (cities d) /\
      calculate_score d (city_code r) weights = Ok s /\ (0 < s)%Q /\
      x = Scored (city_code r) (city_name r) (country r) (py_round3 s) /\
      (0 <= ranking_score x)%Q /\
      (forall c, truthy country_filter = Some c -> country r = Some c).
Proof.
  unfold rank_cities.
  set (rows := match truthy country_filter with
               | Some c => filter (country_is c) (cities d)
               | None => cities d
               end).
  destruct (rank_loop d weights rows) as [rs|] eqn:Hloop; simpl; [|discriminate].
  intros [= <-].
  set (before := fun a b : ranking =>
         if Qlt_le_dec (ranking_score b) (ranking_score a) then true else false).
  split; [|split].
  - apply py_take_sorted.
    apply (StronglySorted_weaken (may_precede before)).
    + intros a b. unfold may_precede, before.
      destruct (Qlt_le_dec (ranking_score a) (ranking_score b)); [discriminate|auto].
    + apply stable_sort_sorted.
      * intros a b. apply score_before_asym.
      * intros a b c. unfold may_precede, before.
        destruct (Qlt_le_dec (ranking_score a) (ranking_score b)); [discriminate|].
        destruct (Qlt_le_dec (ranking_score b) (ranking_score c)); [discriminate|].
        destruct (Qlt_le_dec (ranking_score a) (ranking_score c)); [|reflexivity].
        intros _ _. exfalso. apply (Qlt_irrefl (ranking_score a)).
        eapply Qlt_le_trans; [eassumption|]. eapply Qle_trans; eassumption.
  - apply py_take_length.
  - intros x Hx. apply py_take_In, stable_sort_In in Hx.
    destruct (rank_loop_rows _ _ _ _ _ Hloop Hx) as (r & s & Hr & Hs & Hpos & ->).
    exists r, s. repeat split; auto.
    + unfold rows in Hr. destruct (truthy country_filter);
        [now apply filter_In in Hr|exact Hr].
    + simpl. apply py_round3_nonneg. now apply Qlt_le_weak.
    + intros c Hc. unfold rows in Hr. rewrite Hc in Hr.
      apply filter_In in Hr as [_ Hr]. now apply country_is_eq.
Qed.

Lemma rank_cities_rows_witness :
  StronglySorted (fun a b => (ranking_score b <= ranking_score a)%Q)
    (rows_of (rank_cities sample_db [("TT1", 1%Q)] 10 (Some "FR"))) /\
  Z.of_nat (length (rows_of (rank_cities sample_db [("TT1", 1%Q)] 10 (Some "FR"))))
  <= 10.
Proof.
  destruct (rank_cities_rows sample_db [("TT1", 1%Q)] 10 (Some "FR") _ eq_refl)
    as (Hs & Hl & _).
  split; [exact Hs|]. apply Hl. lia.
Defined.

(** A city whose score is positive and rounds to 0.000 is ranked, with
    the score 0 shown. *)
Example rank_cities_shows_zero :
  exists s,
    rank_cities sample_db [("TT1", 1%Q)] 10 (Some "FR")
    = Ok [Scored "FR001C" (Some "Paris") (Some "FR") s] /\ (s == 0)%Q.
Proof. eexists. split; [reflexivity|]. vm_compute. reflexivity. Qed.



(** X15. [list_cities] returns each entity whose country equals the
    filter except in the case of the letters a-z (SQL [UPPER] changes no
    other byte, so every other letter has to match as it is written),
    once, in non-decreasing order of name with the unnamed first; without
    a country, or with the empty string, it returns every entity. *)
Theorem list_cities_sorted (d : db) (ctry : option string) :
  Permutation (list_cities d ctry)
    (match truthy ctry with
     | Some c => filter (country_is_nocase c) (cities d)
     | None => cities d
     end) /\
  StronglySorted (fun a b => name_ltb (city_name b) (city_name a) = false)
    (list_cities d ctry) /\
  (ctry = None \/ ctry = Some "" -> Permutation (list_cities d ctry) (cities d)) /\
  (forall c r,
     truthy ctry = Some c ->
     (In r (list_cities d ctry) <->
      In r (cities d) /\
      exists s, country r = Some s /\ equal_up_to_ascii_case s c = true)).
Proof.
  unfold list_cities. split; [apply stable_sort_perm|]. split; [|split].
  - apply (stable_sort_sorted (fun a b => name_ltb (city_name a) (city_name b))).
    + intros a b. apply name_ltb_asym.
    + intros a b c. unfold may_precede. apply name_ltb_negtrans.
  - intros [->| ->]; apply stable_sort_perm.
  - intros c r ->. rewrite stable_sort_In, filter_In, country_is_nocase_spec.
    reflexivity.
Qed.

(** With the empty string every entity is listed; with fr, Paris, which
    is stored under FR. *)
Lemma list_cities_sorted_witness :
  Permutation (list_cities sample_db (Some "")) (cities sample_db) /\
  In paris (list_cities sample_db (Some "fr")).
Proof.
  split.
  - destruct (list_cities_sorted sample_db (Some "")) as (_ & _ & H & _).
    apply H. now right.
  - destruct (list_cities_sorted sample_db (Some "fr")) as (_ & _ & _ & H).
    apply (H "fr" paris eq_refl). split; [now left|].
    exists "FR". split; reflexivity.
Defined.

(** X16. The tool [rank_towns_by_country] answers with the error exactly
    when neither a country code nor a country is given (an empty string
    counts as not given); otherwise it ranks by the code when there is
    one, else by the country, and every row of its answer carries exactly
    that string as country. *)
Theorem rank_towns_by_country_rows (d : db) (weights : dict Q)
    (ctry country_code : option string) (limit : Z) :
  (rank_towns_by_country d weights ctry country_code limit = None <->
   truthy country_code = None /\ truthy ctry = None) /\
  forall answer,
    rank_towns_by_country d weights ctry country_code limit = Some answer ->
    exists name,
      name <> "" /\
      (country_code = Some name \/ truthy country_code = None /\ ctry = Some name) /\
      answer = rank_cities_advanced d weights name limit /\
      forall x, In x (rows_of answer) -> ranking_country x = Some name.
Proof.
  unfold rank_towns_by_country.
  assert (Ht : forall o name, truthy o = Some name -> o = Some name /\ name <> "").
  { intros [[|a s]|] name; simpl; try discriminate. intros [= <-]. split; [reflexivity|].
    discriminate. }
  split.
  - destruct (truthy country_code); [split; [discriminate|intros [H _]; discriminate]|].
    destruct (truthy ctry); split; try discriminate; auto.
    intros [_ H]. discriminate.
  - intros answer.
    destruct (truthy country_code) as [name|] eqn:Hcc.
    + intros [= <-]. destruct (Ht _ _ Hcc) as [-> Hne].
      exists name. repeat split; auto.
      intros x. now apply rank_cities_advanced_country.
    + destruct (truthy ctry) as [name|] eqn:Hc; [|discriminate].
      intros [= <-]. destruct (Ht _ _ Hc) as [-> Hne].
      exists name. repeat split; auto.
      intros x. now apply rank_cities_advanced_country.
Qed.

Lemma rank_towns_by_country_rows_witness :
  exists name,
    name <> "" /\
    forall x, In x (rows_of (rank_cities_advanced cities_only_db [] name 5)) ->
              ranking_country x = Some name.
Proof.
  destruct (rank_towns_by_country_rows cities_only_db [] (Some "France") (Some "FR") 5)
    as [_ H].
  destruct (H _ eq_refl) as (name & Hne & _ & Heq & Hrows).
  exists name. split; [exact Hne|]. now rewrite <- Heq.
Defined.

(** ** The gazetteer load *)

Section Gazetteer.

Lemma filter_filter {A : Type} (p q : A -> bool) l :
  filter p (filter q l) = filter (fun x => q x && p x) l.
Proof.
  induction l as [|x l IH]; simpl; [reflexivity|].
  destruct (q x); simpl; [destruct (p x); now rewrite IH|exact IH].
Qed.

Lemma in_file_spec rows r :
  in_file rows r = true <-> In (city_code r) (map city_code rows).
Proof.
  unfold in_file. rewrite existsb_exists, in_map_iff. split.
  - intros (r' & Hr' & He). apply String.eqb_eq in He. eauto.
  - intros (r' & He & Hr'). exists r'. split; [exact Hr'|]. now apply String.eqb_eq.
Qed.

(** The table after a load: the rows whose code the file does not have,
    then the rows of the file that stand. *)
Lemma ingest_rows_closed_form rows :
  forall table,
    fold_left insert_or_replace_city rows table
    = filter (fun r => negb (in_file rows r)) table ++ last_rows rows.
Proof.
  induction rows as [|r0 rows IH]; intros table; simpl.
  - rewrite app_nil_r. induction table as [|x t IHt]; simpl; [reflexivity|].
    now rewrite <- IHt.
  - rewrite IH. unfold insert_or_replace_city. rewrite filter_app, filter_filter.
    simpl. rewrite <- app_assoc. f_equal.
    + apply filter_ext. intros x. unfold in_file. simpl.
      rewrite (String.eqb_sym (city_code r0) (city_code x)).
      now rewrite negb_orb.
    + fold (in_file rows r0). now destruct (in_file rows r0).
Qed.

Lemma last_rows_In rows r : In r (last_rows rows) -> In r rows.
Proof.
  induction rows as [|r0 rows IH]; simpl; [auto|].
  destruct (existsb _ rows); simpl; intuition.
Qed.

Lemma last_rows_codes rows code :
  In code (map city_code rows) -> In code (map city_code (last_rows rows)).
Proof.
  induction rows as [|r0 rows IH]; simpl; [auto|].
  intros [<-|Hin].
  - destruct (existsb _ rows) eqn:He; [|now left].
    apply IH. now apply (in_file_spec rows r0).
  - destruct (existsb _ rows); [auto|right; auto].
Qed.

Lemma last_rows_unique rows : codes_unique (last_rows rows).
Proof.
  unfold codes_unique. induction rows as [|r0 rows IH]; simpl; [constructor|].
  destruct (existsb _ rows) eqn:He; [exact IH|].
  simpl. constructor; [|exact IH].
  intros Hin. apply in_map_iff in Hin as (r & Hc & Hr).
  apply last_rows_In in Hr.
  assert (in_file rows r0 = true).
  { apply in_file_spec. rewrite <- Hc. now apply in_map. }
  unfold in_file in H. congruence.
Qed.

Lemma filter_codes_unique (p : city_row -> bool) table :
  codes_unique table -> codes_unique (filter p table).
Proof.
  unfold codes_unique. induction table as [|x t IH]; simpl; [auto|].
  intros H. inversion H as [|? ? Hx Ht]; subst.
  destruct (p x); simpl; [|auto]. constructor; [|auto].
  intros Hin. apply Hx. apply in_map_iff in Hin as (r & Hc & Hr).
  apply filter_In in Hr as [Hr _]. rewrite <- Hc. now apply in_map.
Qed.

End Gazetteer.

(** X17. After [ingest_csv] the entities are those the store had whose
    code the file does not have, followed by the rows of the file, of
    several rows of one code the last; every code of the file is in the
    store; codes that were distinct stay distinct; and no observation is
    touched. *)
Theorem ingest_csv_last_write_wins (d : db) (city_data : list city_row) :
  cities (ingest_csv d city_data)
  = filter (fun r => negb (in_file city_data r)) (cities d) ++ last_rows city_data /\
  indicators (ingest_csv d city_data) = indicators d /\
  (forall r, In r city_data ->
     In (city_code r) (map city_code (cities (ingest_csv d city_data)))) /\
  (forall r, In r (last_rows city_data) -> In r city_data) /\
  (codes_unique (cities d) -> codes_unique (cities (ingest_csv d city_data))).
Proof.
  unfold ingest_csv. cbn [cities indicators]. rewrite ingest_rows_closed_form.
  split; [reflexivity|]. split; [reflexivity|]. split; [|split].
  - intros r Hr. rewrite map_app, in_app_iff. right.
    apply last_rows_codes. now apply in_map.
  - intros r. apply last_rows_In.
  - intros Hu. unfold codes_unique. rewrite map_app. apply NoDup_app.
    + now apply filter_codes_unique.
    + apply last_rows_unique.
    + intros code H1 H2.
      apply in_map_iff in H1 as (r & <- & Hr). apply filter_In in Hr as [_ Hr].
      apply in_map_iff in H2 as (r' & Hc & Hr'). apply last_rows_In in Hr'.
      assert (in_file city_data r = true).
      { apply in_file_spec. rewrite <- Hc. now apply in_map. }
      rewrite H in Hr. discriminate.
Qed.

(** A file with two rows for Paris over a store that has Paris and Lyon. *)
Lemma ingest_csv_last_write_wins_witness :
  codes_unique
    (cities (ingest_csv sample_db [city_of "FR001C" "France"; city_of "FR001C" "FR"])) /\
  In "FR001C"
    (map city_code
       (cities (ingest_csv sample_db [city_of "FR001C" "France"; city_of "FR001C" "FR"]))).
Proof.
  destruct (ingest_csv_last_write_wins sample_db
              [city_of "FR001C" "France"; city_of "FR001C" "FR"])
    as (_ & _ & Hin & _ & Hu).
  split.
  - apply Hu. repeat constructor; simpl; intuition discriminate.
  - apply (Hin (city_of "FR001C" "France")). now left.
Defined.


(** The gazetteer overwrites what ingestion wrote for a code, and
    ingestion leaves what the gazetteer wrote. *)
Example ingest_csv_then_store_data :
  cities (fst (rows_of_store
                 (store_data example_builtins
                    (ingest_csv empty_db [city_of "FR001C" "France"])
                    (one_cell dated_dims 42%Q))))
  = [city_of "FR001C" "France"] /\
  cities (ingest_csv
            (fst (rows_of_store
                    (store_data example_builtins empty_db (one_cell dated_dims 42%Q))))
            [city_of "FR001C" "France"])
  = [city_of "FR001C" "France"].
Proof. split; reflexivity. Qed.

(** ** The queries *)

Section Queries.

Lemma ascii_upper_lower a : ascii_upper (ascii_lower a) = ascii_upper a.
Proof. destruct a as [[] [] [] [] [] [] [] []]; reflexivity. Qed.

Lemma ascii_lower_upper a : ascii_lower (ascii_upper a) = ascii_lower a.
Proof. destruct a as [[] [] [] [] [] [] [] []]; reflexivity. Qed.

Lemma upper_lower s : upper (lower s) = upper s.
Proof.
  induction s as [|a s IH]; simpl; [reflexivity|]. now rewrite ascii_upper_lower, IH.
Qed.

Lemma lower_upper s : lower (upper s) = lower s.
Proof.
  induction s as [|a s IH]; simpl; [reflexivity|]. now rewrite ascii_lower_upper, IH.
Qed.

(** [LOWER(a) = LOWER(b)] and [UPPER(a) = UPPER(b)] select the same rows. *)
Lemma country_is_lower_nocase c r : country_is_lower c r = country_is_nocase c r.
Proof.
  unfold country_is_lower, country_is_nocase. destruct (country r) as [s|]; [|reflexivity].
  destruct (String.eqb_spec (lower s) (lower c)) as [Hl|Hl];
    destruct (String.eqb_spec (upper s) (upper c)) as [Hu|Hu]; try reflexivity.
  - exfalso. apply Hu. now rewrite <- (upper_lower s), Hl, upper_lower.
  - exfalso. apply Hl. now rewrite <- (lower_upper s), Hu, lower_upper.
Qed.

Lemma opt_string_eqb_eq a b : opt_string_eqb a b = true <-> a = b.
Proof.
  destruct a, b; simpl; split; try discriminate; try reflexivity.
  - intros H. apply String.eqb_eq in H. now subst.
  - intros [= ->]. apply String.eqb_refl.
Qed.

Lemma pair_eqb_eq a b : pair_eqb a b = true <-> a = b.
Proof.
  unfold pair_eqb. rewrite andb_true_iff, !opt_string_eqb_eq.
  destruct a, b; simpl. split; [intros [-> ->]; reflexivity|intros [= -> ->]; auto].
Qed.

Lemma filter_sorted {A : Type} (R : A -> A -> Prop) (p : A -> bool) l :
  StronglySorted R l -> StronglySorted R (filter p l).
Proof.
  induction 1 as [|x l Hl IH Hx]; simpl; [constructor|].
  destruct (p x); [|exact IH]. constructor; [exact IH|].
  apply Forall_forall. intros y Hy. apply filter_In in Hy as [Hy _].
  rewrite Forall_forall in Hx. now apply Hx.
Qed.

Context {A : Type}.
Variable eqb : A -> A -> bool.
Hypothesis eqb_eq : forall a b, eqb a b = true <-> a = b.

Lemma distinct_In l x : In x (distinct eqb l) <-> In x l.
Proof.
  induction l as [|y l IH]; simpl; [reflexivity|].
  rewrite filter_In, IH. split.
  - intros [H|[H _]]; auto.
  - intros [H|H]; [auto|].
    destruct (eqb y x) eqn:E; [left; now apply eqb_eq|right; auto].
Qed.

Lemma distinct_NoDup l : NoDup (distinct eqb l).
Proof.
  induction l as [|y l IH]; simpl; constructor.
  - rewrite filter_In. intros [_ H].
    rewrite (proj2 (eqb_eq y y) eq_refl) in H. discriminate.
  - now apply NoDup_filter.
Qed.

End Queries.

(** X19. [get_cities_by_country] answers [None] exactly when no entity
    has a country equal to the one asked for except in the case of the
    letters a-z (SQL [LOWER] changes no other byte, so every other letter
    has to match as it is written); otherwise a non-empty list of the
    names of those entities, each entity once, in non-decreasing order;
    and for a country that is not the empty string these are the names of
    the rows of [list_cities], in the same order. *)
Theorem get_cities_by_country_names (d : db) (country_name : string) :
  (get_cities_by_country d country_name = None <->
   forall r, In r (cities d) -> country_is_lower country_name r = false) /\
  (forall names,
    get_cities_by_country d country_name = Some names ->
    names <> [] /\
    StronglySorted (fun a b => name_ltb b a = false) names /\
    Permutation names
      (map city_name (filter (country_is_lower country_name) (cities d))) /\
    (country_name <> "" ->
     names = map city_name (list_cities d (Some country_name)))) /\
  (forall r,
     country_is_lower country_name r = true <->
     exists s, country r = Some s /\
               equal_up_to_ascii_case s country_name = true).
Proof.
  apply (proj1 (and_assoc _ _ _)). split;
    [|intros r; rewrite country_is_lower_nocase; apply country_is_nocase_spec].
  unfold get_cities_by_country.
  set (rows := filter (country_is_lower country_name) (cities d)).
  pose proof (stable_sort_length name_ltb (map city_name rows)) as Hlen.
  pose proof (stable_sort_perm name_ltb (map city_name rows)) as Hperm.
  assert (Hsorted : StronglySorted (fun a b => name_ltb b a = false)
                      (stable_sort name_ltb (map city_name rows))).
  { apply (stable_sort_sorted name_ltb).
    - apply name_ltb_asym.
    - intros a b c. unfold may_precede. apply name_ltb_negtrans. }
  assert (Hlist : country_name <> "" ->
                  stable_sort name_ltb (map city_name rows)
                  = map city_name (list_cities d (Some country_name))).
  { intros Hne. unfold list_cities.
    assert (Ht : truthy (Some country_name) = Some country_name)
      by (now destruct country_name).
    rewrite Ht, (stable_sort_map city_name name_ltb). f_equal. f_equal.
    apply filter_ext. intros r. apply country_is_lower_nocase. }
  destruct (stable_sort name_ltb (map city_name rows)) as [|n ns] eqn:Hs.
  - split.
    + split; [|reflexivity]. intros _ r Hr.
      destruct (country_is_lower country_name r) eqn:Hc; [|reflexivity].
      assert (Hin : In r rows) by (apply filter_In; auto).
      rewrite length_map in Hlen. destruct rows; [contradiction|discriminate].
    + discriminate.
  - split.
    + split; [discriminate|]. intros Hnone. exfalso.
      rewrite length_map in Hlen.
      destruct rows as [|r rows'] eqn:Hr; [discriminate|].
      assert (Hin : In r (filter (country_is_lower country_name) (cities d))).
      { fold rows. rewrite Hr. now left. }
      apply filter_In in Hin as [Hin Hc]. rewrite (Hnone r Hin) in Hc. discriminate.
    + intros names [= <-]. repeat split; auto. discriminate.
Qed.

Lemma get_cities_by_country_names_witness :
  get_cities_by_country sample_db "Spain" = None /\
  exists names,
    get_cities_by_country sample_db "fr" = Some names /\
    names = map city_name (list_cities sample_db (Some "fr")).
Proof.
  split.
  - apply (proj1 (get_cities_by_country_names sample_db "Spain")).
    intros r [<-|[<-|[]]]; reflexivity.
  - eexists. split; [reflexivity|].
    apply (proj1 (proj2 (get_cities_by_country_names sample_db "fr")));
      [reflexivity|discriminate].
Defined.

(** With the empty string [list_cities] lists every entity, while
    [get_cities_by_country] looks for the entities of the country "". *)
Example empty_country_differs :
  get_cities_by_country sample_db "" = None /\
  map city_name (list_cities sample_db (Some "")) = [Some "Lyon"; Some "Paris"].
Proof. split; reflexivity. Qed.

(** ** [get_city_data] and [list_available_indicators] *)

Section CityData.

Lemma latest_of_filter_some (p : indicator_row -> bool) rows r :
  latest_of (filter p rows) None = Some r -> In r rows /\ p r = true.
Proof.
  intros H. apply latest_of_In in H as [H|H]; [|discriminate].
  now apply filter_In in H.
Qed.

Lemma latest_of_nonempty rows :
  forall best, rows <> [] \/ best <> None -> latest_of rows best <> None.
Proof.
  induction rows as [|x rows IH]; intros best; simpl.
  - intros [H|H]; [contradiction|exact H].
  - intros _. apply IH. right. destruct best; [destruct (year_leb _ _)|]; discriminate.
Qed.

(** The group of an indicator code among the rows of a city is what
    [calculate_score] reads for that code. *)
Lemma group_is_matching d code k :
  filter (fun r => opt_string_eqb (ind_indicator_code r) (Some k))
    (filter (fun r => String.eqb (ind_city_code r) code) (indicators d))
  = filter (obs_matches code k) (indicators d).
Proof.
  rewrite filter_filter. apply filter_ext. intros r. unfold obs_matches.
  destruct (ind_indicator_code r); reflexivity.
Qed.

Lemma latest_entries_codes rows :
  map e_code (latest_entries rows)
  = filter (fun k =>
              match latest_of
                      (filter (fun r => opt_string_eqb (ind_indicator_code r) k) rows)
                      None with
              | Some _ => true
              | None => false
              end)
      (stable_sort name_ltb (distinct opt_string_eqb (map ind_indicator_code rows))).
Proof.
  unfold latest_entries.
  induction (stable_sort name_ltb _) as [|k ks IH]; simpl; [reflexivity|].
  rewrite map_app, IH.
  destruct (latest_of _ None) as [r|] eqn:Hl; simpl; [|reflexivity].
  f_equal. apply latest_of_filter_some in Hl as [_ Hl].
  now apply opt_string_eqb_eq in Hl.
Qed.

Lemma latest_entries_In rows e :
  In e (latest_entries rows) <->
  exists r,
    latest_of (filter (fun r' => opt_string_eqb (ind_indicator_code r') (e_code e)) rows)
      None = Some r /\ e = entry_of r.
Proof.
  unfold latest_entries. rewrite in_flat_map. split.
  - intros (k & _ & He).
    destruct (latest_of _ None) as [r|] eqn:Hl; [|contradiction].
    destruct He as [<-|[]]. exists r. split; [|reflexivity].
    pose proof (latest_of_filter_some _ _ _ Hl) as [_ Hk].
    apply opt_string_eqb_eq in Hk. simpl. now rewrite Hk.
  - intros (r & Hl & ->). exists (ind_indicator_code r).
    pose proof (latest_of_filter_some _ _ _ Hl) as [Hr _]. simpl in Hl. split.
    + apply stable_sort_In, (distinct_In _ opt_string_eqb_eq). now apply in_map.
    + rewrite Hl. now left.
Qed.

Lemma year_ltb_asym a b : year_ltb a b = true -> year_ltb b a = false.
Proof.
  destruct a, b; simpl; try reflexivity; try discriminate.
  rewrite Z.ltb_lt, Z.ltb_ge. lia.
Qed.

Lemma year_ltb_negtrans a b c :
  year_ltb a b = false -> year_ltb b c = false -> year_ltb a c = false.
Proof.
  destruct a, b, c; simpl; try reflexivity; try discriminate.
  rewrite !Z.ltb_ge. lia.
Qed.

Lemma name_ltb_irrefl a : name_ltb a a = false.
Proof.
  destruct a as [s|]; simpl; [|reflexivity].
  unfold String.ltb. now rewrite string_compare_refl.
Qed.

Lemma name_ltb_total a b :
  name_ltb a b = false -> name_ltb b a = false -> a = b.
Proof.
  destruct a as [s|], b as [t|]; simpl; try discriminate; try reflexivity.
  unfold String.ltb. rewrite (String.compare_antisym t s).
  destruct (String.compare s t) eqn:E; simpl; try discriminate.
  intros _ _. f_equal. now apply String.compare_eq_iff.
Qed.

Lemma name_ltb_trans a b c :
  name_ltb a b = true -> name_ltb b c = true -> name_ltb a c = true.
Proof.
  intros H1 H2. destruct (name_ltb a c) eqn:E; [reflexivity|]. exfalso.
  pose proof (name_ltb_negtrans _ _ _ (name_ltb_asym _ _ H2) E) as H.
  congruence.
Qed.

Lemma code_year_before_asym a b :
  code_year_before a b = true -> code_year_before b a = false.
Proof.
  unfold code_year_before. intros H. apply orb_prop in H as [H|H].
  - rewrite (name_ltb_asym _ _ H). simpl.
    destruct (opt_string_eqb (ind_indicator_code b) (ind_indicator_code a)) eqn:E;
      [|reflexivity].
    apply opt_string_eqb_eq in E. rewrite E, name_ltb_irrefl in H. discriminate.
  - apply andb_prop in H as [He Hy]. apply opt_string_eqb_eq in He.
    rewrite He, name_ltb_irrefl. simpl.
    rewrite (year_ltb_asym _ _ Hy). apply andb_false_r.
Qed.

Lemma code_year_before_negtrans a b c :
  may_precede code_year_before a b -> may_precede code_year_before b c ->
  may_precede code_year_before a c.
Proof.
  unfold may_precede, code_year_before. intros H1 H2.
  apply orb_false_elim in H1 as [L1 E1]. apply orb_false_elim in H2 as [L2 E2].
  apply orb_false_intro.
  - eapply name_ltb_negtrans; eauto.
  - destruct (opt_string_eqb (ind_indicator_code c) (ind_indicator_code a)) eqn:E;
      [|reflexivity].
    apply opt_string_eqb_eq in E. simpl. rewrite E in *.
    assert (Hb : ind_indicator_code b = ind_indicator_code a)
      by (now apply name_ltb_total).
    rewrite Hb in *.
    rewrite (proj2 (opt_string_eqb_eq _ _) eq_refl) in E1, E2. simpl in E1, E2.
    eapply year_ltb_negtrans; eauto.
Qed.

End CityData.

(** X20. [get_city_data] answers with the error exactly when no entity
    has the code.  With [latest_only] the indicators of the answer have
    distinct codes, in non-decreasing order; the entry of an indicator
    code is the observation that [calculate_score] reads for that entity
    and code, and every such observation has its entry. *)
Theorem get_city_data_latest (d : db) (code : string) :
  (forall latest_only,
      get_city_data d code latest_only = CityNotFound code <->
      ~ In code (map city_code (cities d))) /\
  forall name ctry inds,
    get_city_data d code true = CityData code name ctry inds ->
    NoDup (map e_code inds) /\
    StronglySorted (fun a b => name_ltb b a = false) (map e_code inds) /\
    (forall k r, latest_row d code k = Some r -> In (entry_of r) inds) /\
    (forall e k, In e inds -> e_code e = Some k ->
       exists r, latest_row d code k = Some r /\ e = entry_of r).
Proof.
  unfold get_city_data. split.
  - intros lo.
    destruct (find _ (cities d)) as [info|] eqn:Hf.
    + split; [discriminate|]. intros Hn. exfalso. apply Hn.
      apply find_some in Hf as [Hin He]. apply String.eqb_eq in He.
      rewrite <- He. now apply in_map.
    + split; [|reflexivity]. intros _ Hin.
      apply in_map_iff in Hin as (r & Hc & Hr).
      pose proof (find_none _ _ Hf r Hr) as H. cbv beta in H.
      rewrite Hc, String.eqb_refl in H. discriminate.
  - intros name ctry inds.
    destruct (find _ (cities d)) as [info|]; [|discriminate].
    intros [= _ _ <-].
    set (rows := filter (fun r => String.eqb (ind_city_code r) code) (indicators d)).
    rewrite latest_entries_codes. split; [|split; [|split]].
    + apply NoDup_filter.
      apply (Permutation_NoDup (Permutation_sym (stable_sort_perm _ _))).
      apply (distinct_NoDup _ opt_string_eqb_eq).
    + apply filter_sorted. apply (stable_sort_sorted name_ltb).
      * apply name_ltb_asym.
      * intros a b c. unfold may_precede. apply name_ltb_negtrans.
    + intros k r Hl. apply latest_entries_In. exists r. split; [|reflexivity].
      unfold latest_row in Hl. pose proof (latest_of_filter_some _ _ _ Hl) as [_ Hm].
      unfold obs_matches in Hm. apply andb_prop in Hm as [_ Hm].
      destruct (ind_indicator_code r) as [k'|] eqn:Hk; [|discriminate].
      simpl in Hm. apply String.eqb_eq in Hm. subst k'. simpl. rewrite Hk.
      unfold rows. now rewrite group_is_matching.
    + intros e k He Hk. apply latest_entries_In in He as (r & Hl & ->).
      exists r. split; [|reflexivity]. rewrite Hk in Hl.
      unfold rows in Hl. now rewrite group_is_matching in Hl.
Qed.

(** Paris has one observation; code ZZ999 is no entity. *)
Lemma get_city_data_latest_witness :
  get_city_data sample_db "ZZ999" true = CityNotFound "ZZ999" /\
  In (entry_of (observation "FR001C" "TT1" "Population" 2020 42%Q))
    (match get_city_data sample_db "FR001C" true with
     | CityData _ _ _ inds => inds
     | CityNotFound _ => []
     end).
Proof.
  destruct (get_city_data_latest sample_db "ZZ999") as [Hnf _].
  destruct (get_city_data_latest sample_db "FR001C") as [_ Hl].
  split.
  - apply Hnf. simpl. intros [H|[H|[]]]; discriminate.
  - destruct (Hl _ _ _ eq_refl) as (_ & _ & Hin & _).
    apply (Hin "TT1"). reflexivity.
Defined.

(** X21. Without [latest_only] the answer of [get_city_data] has every
    observation of the entity once, ordered by indicator code and, within
    a code, from the latest year to the earliest with the undated last;
    and it holds every entry that the answer with [latest_only] has. *)
Theorem get_city_data_all (d : db) (code : string) (name ctry : option string)
    (inds : list indicator_entry) :
  get_city_data d code false = CityData code name ctry inds ->
  (exists rows,
      inds = map entry_of rows /\
      Permutation rows
        (filter (fun r => String.eqb (ind_city_code r) code) (indicators d)) /\
      StronglySorted (fun a b => code_year_before b a = false) rows) /\
  forall inds',
    get_city_data d code true = CityData code name ctry inds' ->
    incl inds' inds.
Proof.
  unfold get_city_data.
  destruct (find _ (cities d)) as [info|]; [|discriminate].
  intros [= _ _ <-]. split.
  - eexists. split; [reflexivity|]. split; [apply stable_sort_perm|].
    apply (stable_sort_sorted code_year_before).
    + apply code_year_before_asym.
    + apply code_year_before_negtrans.
  - intros inds' [= _ _ <-] e He.
    apply latest_entries_In in He as (r & Hl & ->).
    apply in_map, stable_sort_In. now apply latest_of_filter_some in Hl.
Qed.

Lemma get_city_data_all_witness :
  exists rows,
    map entry_of [observation "FR001C" "TT1" "Population" 2020 42%Q]
    = map entry_of rows /\
    Permutation rows
      (filter (fun r => String.eqb (ind_city_code r) "FR001C") (indicators sample_db)).
Proof.
  destruct (get_city_data_all sample_db "FR001C" _ _ _ eq_refl)
    as ((rows & Heq & Hp & _) & _).
  exists rows. split; [exact Heq|exact Hp].
Defined.

(** X22. [list_available_indicators] lists each pair of indicator code
    and name that some observation has, once, in non-decreasing order of
    code; every indicator that contributes to a score is in the list
    under its code. *)
Theorem list_available_indicators_pairs (d : db) :
  NoDup (list_available_indicators d) /\
  (forall p, In p (list_available_indicators d) <->
             exists r, In r (indicators d) /\
                       p = (ind_indicator_code r, ind_indicator_name r)) /\
  StronglySorted (fun a b => name_ltb (fst b) (fst a) = false)
    (list_available_indicators d) /\
  (forall code item,
      contributes d code item = true ->
      exists name, In (Some (fst item), name) (list_available_indicators d)).
Proof.
  unfold list_available_indicators.
  assert (Hin : forall p,
    In p (stable_sort (fun a b => name_ltb (fst a) (fst b))
            (distinct pair_eqb
               (map (fun r => (ind_indicator_code r, ind_indicator_name r))
                  (indicators d)))) <->
    exists r, In r (indicators d) /\
              p = (ind_indicator_code r, ind_indicator_name r)).
  { intros p. rewrite stable_sort_In, (distinct_In _ pair_eqb_eq), in_map_iff.
    split; intros (r & H1 & H2); exists r; auto. }
  split; [|split; [exact Hin|split]].
  - apply (Permutation_NoDup (Permutation_sym (stable_sort_perm _ _))).
    apply (distinct_NoDup _ pair_eqb_eq).
  - apply (stable_sort_sorted (fun a b => name_ltb (fst a) (fst b))).
    + intros a b. apply name_ltb_asym.
    + intros a b c. unfold may_precede. apply name_ltb_negtrans.
  - intros code item Hc. unfold contributes, observed, latest_row in Hc.
    destruct (latest_of _ None) as [r|] eqn:Hl; [|discriminate].
    apply latest_of_filter_some in Hl as [Hr Hm].
    unfold obs_matches in Hm. apply andb_prop in Hm as [_ Hm].
    destruct (ind_indicator_code r) as [k|] eqn:Hk; [|discriminate].
    simpl in Hm. apply String.eqb_eq in Hm. subst k.
    exists (ind_indicator_name r). apply Hin. exists r. now rewrite Hk.
Qed.

Lemma list_available_indicators_pairs_witness :
  exists name, In (Some "TT1", name) (list_available_indicators sample_db).
Proof.
  destruct (list_available_indicators_pairs sample_db) as (_ & _ & _ & H).
  apply (H "FR001C" ("TT1", 1%Q)). reflexivity.
Defined.

(** ** Instances of the properties above *)

(** The cube whose status object has the text key: one record, with the
    value of the cell, and the status under the integer key, which is
    none. *)
Lemma parse_jsonstat_records_witness :
  length (rows_of (parse_jsonstat flagged_cube)) = length (cube_value flagged_cube) /\
  forall n rec, nth_error (rows_of (parse_jsonstat flagged_cube)) n = Some rec ->
    exists value,
      nth_error (cube_value flagged_cube) n = Some value /\
      dict_get rec "value" = Some (cell value) /\
      dict_get rec "status" =
        Some (PStr (match cube_status flagged_cube with
                    | [] => ""
                    | _ => status_get (cube_status flagged_cube) (KInt (Z.of_nat n)) ""
                    end)).
Proof.
  apply (parse_jsonstat_records flagged_cube). reflexivity.
Defined.

(** Two French cities without observation, ranked for TT1. *)
Lemma rank_cities_advanced_without_data_witness :
  rank_cities_advanced cities_only_db [("TT1", 1%Q)] "FR" 5
  = rank_cities cities_only_db [("TT1", 1%Q)] 5 (Some "FR") /\
  rank_cities_advanced cities_only_db [("TT1", 1%Q)] "FR" 5 = Ok [].
Proof.
  destruct (rank_cities_advanced_without_data cities_only_db [("TT1", 1%Q)] "FR" 5)
    as [H1 H2]; try discriminate.
  split; [exact H1|]. apply H2. reflexivity.
Defined.
